(** * NR ProSe ns-3 module: relay selection, ProSe helper and direct links

  A shallow embedding of the parts of the NR ProSe module that its
  design specification talks about, and the properties proved of them.

  - [Double]: IEEE-754 binary64 values and the C++ comparison [>].
  - [RelaySelection]: the three [SelectRelay] implementations of
    model/nr-sl-ue-prose-relay-selection-algorithm.cc.
  - [RandomObjects]: several random selection objects, each with the
    random variable its constructor creates, and the calls they receive.
  - [Helper]: [NrSlProseHelper::EstablishL3UeToNetworkRelayConnection],
    [StartDiscoveryApp] and [StartDiscovery] of
    helper/nr-sl-prose-helper.cc, over an explicit simulator world.
  - [DirectLink] and [ProseController]: the direct link state machine
    and the per-endpoint link table.  The classes NrSlUeProseDirectLink
    and NrSlUeProse are not among the source files, so these two
    modules follow the specification text.
  - [DirectLinkSetup]: [NrSlProseHelper::EstablishRealDirectLink], over
    the world of [Helper], on two separate [SidelinkInfo] values and, in
    [ByReference], on the caller's objects through the two references.
  - [RelayTrace]: the three trace writers of helper/nr-sl-relay-trace.cc
    and the files they write.
  - [RelaySetup]: [PrepareUesForUnicast], [ConfigureL3UeToNetworkRelay],
    [StartRelayDiscovery] and [StartRemoteRelayConnection] of
    helper/nr-sl-prose-helper.cc, over a world with the EPC helper and
    the NR UE devices.

  Conventions: a [uint32_t] is a [Z]; a [std::vector] or [std::list] is
  a [list] (vectors hold fewer than 2^32 elements, so a [uint32_t] loop
  counter does not wrap); a [Time] is a [Z] number of ticks. *)

From stdpp Require Import base numbers list option gmap strings sorting.
From Stdlib Require Import SpecFloat.

#[local] Open Scope Z_scope.

(** ** How a call can end *)

(** A C++ call either returns, or ends in one of the ways the modelled
  code can end otherwise. *)
Inductive outcome (A : Type) : Type :=
| Ret (a : A)
| OutOfRange                 (* std::out_of_range thrown by std::vector::at *)
| FatalError (msg : string)  (* NS_FATAL_ERROR: the message is printed, the process terminates *)
| NullPointer                (* a null Ptr<> is dereferenced *)
| Undefined.                 (* undefined behaviour: a past-the-end iterator is dereferenced *)
Arguments Ret {A} a.
Arguments OutOfRange {A}.
Arguments FatalError {A} msg.
Arguments NullPointer {A}.
Arguments Undefined {A}.

Definition to_uint32 (z : Z) : Z := z mod 2 ^ 32.

(** [std::vector::size], [empty] and [at]. *)
Definition vector_size {A} (v : list A) : Z := Z.of_nat (length v).

Definition vector_empty {A} (v : list A) : bool :=
match v with [] => true | _ :: _ => false end.

Definition vector_at {A} (v : list A) (i : Z) : outcome A :=
if (0 <=? i) && (i <? vector_size v) then
  match nth_error v (Z.to_nat i) with
  | Some x => Ret x
  | None => OutOfRange
  end
else OutOfRange.

(** ** Doubles *)

Module Double.

(** A C++ [double] is an IEEE-754 binary64 value: a signed zero, a signed
    infinity, a NaN, or sign, mantissa and exponent. *)
Definition double : Type := spec_float.

Definition prec : Z := 53.
Definition emax : Z := 1024.

(** The binary64 values among the [spec_float]s. *)
Definition is_binary64 (x : double) : bool := valid_binary prec emax x.

Definition is_nan (x : double) : bool :=
  match x with S754_nan => true | _ => false end.

(** The C++ comparisons [a > b], [a < b] and [a <= b]: all false when an
    operand is a NaN. *)
Definition gt (a b : double) : bool := SFltb b a.
Definition lt (a b : double) : bool := SFltb a b.
Definition le (a b : double) : bool := SFleb a b.

(** The double nearest to an integer (a literal such as [-80.0]). *)
Definition of_Z (z : Z) : double := binary_normalize prec emax z 0 false.

Definition neg_infinity : double := S754_infinity true.
Definition nan : double := S754_nan.

End Double.

(** ** Relay selection algorithms *)

Module RelaySelection.

(** [NrSlUeProse::RelayInfo], with the members [SelectRelay] reads and
    writes.  The struct is declared in nr-sl-ue-prose.h, which is not
    among the source files: the value of a default-constructed
    [RelayInfo] is therefore a parameter, [RelayInfo_default], of
    everything below.  ([SelectRelay] reads the members of a local
    [RelayInfo relay;] before writing them, so the model takes the members
    to have default initialisers, and [RelayInfo relay;] and [RelayInfo ()]
    to be the same value.) *)
Record RelayInfo : Type := mkRelayInfo {
  l2Id : Z;                 (* uint32_t *)
  relayCode : Z;            (* uint32_t *)
  rsrp : Double.double;
  eligible : bool
}.

(** ns-3's [UniformRandomVariable], as far as the module uses it: a stream
    state, [GetInteger (min, max)] which draws from the stream, and
    [SetStream]. *)
Class UniformRandomVariable : Type := {
  RngStream : Type;
  GetInteger : RngStream -> Z -> Z -> Z * RngStream;
  SetStream : RngStream -> Z -> RngStream
}.

(** ns-3 documents [GetInteger (min, max)] as an integer of [[min, max]],
    both ends included. *)
Definition GetInteger_in_range `{UniformRandomVariable} : Prop :=
  forall (s : RngStream) (lo hi : Z),
    0 <= lo <= hi -> hi < 2 ^ 32 ->
    lo <= fst (GetInteger s lo hi) <= hi.

(** A linear congruential stream, to run [Random] on. *)
Definition lcg_next (s : Z) : Z := (1103515245 * s + 12345) mod 2 ^ 31.

#[export] Instance Lcg : UniformRandomVariable := {|
  RngStream := Z;
  GetInteger := fun s lo hi => (lo + lcg_next s mod (hi - lo + 1), lcg_next s);
  SetStream := fun _ stream => stream
|}.

(** What the specification asks of the maximum-signal strategy: [c] is at
    index [length before] of the list, is eligible, and no eligible
    candidate before it is as strong, none after it is stronger. *)
Definition first_strongest_eligible (l : list RelayInfo) (c : RelayInfo) : Prop :=
  exists before after : list RelayInfo,
    l = before ++ c :: after /\
    eligible c = true /\
    (forall x, In x before -> eligible x = true ->
               Double.le (rsrp c) (rsrp x) = false) /\
    (forall x, In x after -> eligible x = true ->
               Double.gt (rsrp x) (rsrp c) = false).

Section Algorithms.

Context `{UniformRandomVariable}.
Variable RelayInfo_default : RelayInfo.

(** [NrSlUeProseRelaySelectionAlgorithmFirstAvailable::SelectRelay] *)
Definition SelectRelay_FirstAvailable
    (discoveredRelays : list RelayInfo) : outcome RelayInfo :=
  if negb (vector_empty discoveredRelays)
  then vector_at discoveredRelays 0
  else Ret RelayInfo_default.

(** [NrSlUeProseRelaySelectionAlgorithmRandom::AssignStreams] *)
Definition AssignStreams (m_rand : RngStream) (stream : Z) : Z * RngStream :=
  (1, SetStream m_rand stream).

(** [NrSlUeProseRelaySelectionAlgorithmRandom::SelectRelay]: the result
    and the stream [m_rand] after the call. *)
Definition SelectRelay_Random (m_rand : RngStream)
    (discoveredRelays : list RelayInfo) : outcome RelayInfo * RngStream :=
  if negb (vector_empty discoveredRelays)
  then
    let '(i, m_rand') :=
      GetInteger m_rand 0 (to_uint32 (vector_size discoveredRelays - 1)) in
    (vector_at discoveredRelays i, m_rand')
  else (Ret RelayInfo_default, m_rand).

(** The body of the loop of
    [NrSlUeProseRelaySelectionAlgorithmMaxRsrp::SelectRelay], on the
    locals [relay] and [found]. *)
Definition MaxRsrp_body (st : RelayInfo * bool) (relayIt : RelayInfo)
    : RelayInfo * bool :=
  let '(relay, found) := st in
  if Double.gt (rsrp relayIt) (rsrp relay) && Bool.eqb (eligible relayIt) true
  then ({| l2Id := l2Id relayIt;
           relayCode := relayCode relayIt;
           rsrp := rsrp relayIt;
           eligible := eligible relayIt |}, true)
  else (relay, found).

(** [for (uint32_t i = ...; i < discoveredRelays.size (); ++i)] with [n]
    iterations left. *)
Fixpoint MaxRsrp_for (n : nat) (i : Z) (discoveredRelays : list RelayInfo)
    (st : RelayInfo * bool) : outcome (RelayInfo * bool) :=
  match n with
  | O => Ret st
  | S n' =>
      match vector_at discoveredRelays i with
      | Ret relayIt =>
          MaxRsrp_for n' (i + 1) discoveredRelays (MaxRsrp_body st relayIt)
      | OutOfRange => OutOfRange
      | FatalError msg => FatalError msg
      | NullPointer => NullPointer
      | Undefined => Undefined
      end
  end.

(** The locals [relay] and [found] when the loop is left. *)
Definition MaxRsrp_loop (discoveredRelays : list RelayInfo)
    : outcome (RelayInfo * bool) :=
  MaxRsrp_for (length discoveredRelays) 0 discoveredRelays
              (RelayInfo_default, false).

(** [NrSlUeProseRelaySelectionAlgorithmMaxRsrp::SelectRelay]: [found]
    only chooses the log line. *)
Definition SelectRelay_MaxRsrp (discoveredRelays : list RelayInfo)
    : outcome RelayInfo :=
  match MaxRsrp_loop discoveredRelays with
  | Ret (relay, _) => Ret relay
  | OutOfRange => OutOfRange
  | FatalError msg => FatalError msg
  | NullPointer => NullPointer
  | Undefined => Undefined
  end.

(** The loop as a fold over the vector in index order. *)
Definition MaxRsrp_fold (discoveredRelays : list RelayInfo)
    (st : RelayInfo * bool) : RelayInfo * bool :=
  fold_left MaxRsrp_body discoveredRelays st.

(** What the locals [relay] and [found] hold after the candidates [l] were
    visited: nothing found and no eligible candidate above the default, or
    the first strongest eligible candidate, which is above the default. *)
Definition MaxRsrp_inv (l : list RelayInfo) (st : RelayInfo * bool) : Prop :=
  match st with
  | (relay, false) =>
      relay = RelayInfo_default /\
      forall x, In x l -> eligible x = true ->
                Double.gt (rsrp x) (rsrp RelayInfo_default) = false
  | (relay, true) =>
      Double.gt (rsrp relay) (rsrp RelayInfo_default) = true /\
      first_strongest_eligible l relay
  end.

(** The class hierarchy: an algorithm object is one of the three
    subclasses; only [Random] has a member. *)
Inductive NrSlUeProseRelaySelectionAlgorithm : Type :=
| FirstAvailable
| Random (m_rand : RngStream)
| MaxRsrp.

(** The virtual [SelectRelay]: the result and the object after the call. *)
Definition SelectRelay (a : NrSlUeProseRelaySelectionAlgorithm)
    (discoveredRelays : list RelayInfo)
    : outcome RelayInfo * NrSlUeProseRelaySelectionAlgorithm :=
  match a with
  | FirstAvailable => (SelectRelay_FirstAvailable discoveredRelays, FirstAvailable)
  | Random m_rand =>
      let '(r, m_rand') := SelectRelay_Random m_rand discoveredRelays in
      (r, Random m_rand')
  | MaxRsrp => (SelectRelay_MaxRsrp discoveredRelays, MaxRsrp)
  end.

End Algorithms.

(** The candidates of the specification's examples. *)
Definition candidate (id : Z) (r : Z) (e : bool) : RelayInfo :=
  {| l2Id := id; relayCode := 0; rsrp := Double.of_Z r; eligible := e |}.

Definition example_candidates : list RelayInfo :=
  [candidate 1 (-80) true; candidate 2 (-70) true; candidate 3 (-60) false].


(** Two values a default-constructed [RelayInfo] may have: the rsrp
    initialised to minus infinity, or every member zero. *)
Definition RelayInfo_minus_infinity : RelayInfo :=
  {| l2Id := 0; relayCode := 0; rsrp := Double.neg_infinity; eligible := false |}.

Definition RelayInfo_zero : RelayInfo :=
  {| l2Id := 0; relayCode := 0; rsrp := Double.of_Z 0; eligible := false |}.

End RelaySelection.

(** ** Random selection objects and their streams *)

Module RandomObjects.

Import RelaySelection.

(** Values of [double], [RelayInfo] and the outcomes of a call can be told
    apart. *)
#[export] Instance double_eq_dec : EqDecision Double.double.
Proof. unfold Double.double. solve_decision. Defined.

#[export] Instance RelayInfo_eq_dec : EqDecision RelayInfo.
Proof. solve_decision. Defined.

#[export] Instance outcome_eq_dec {A} `{EqDecision A} : EqDecision (outcome A).
Proof. solve_decision. Defined.

(** ns-3 documents [SetStream (stream)] with a stream number that is not
    negative as a deterministic assignment: the generator restarts on that
    stream of the run, whatever it has produced before (a negative number
    asks for the next automatic stream instead). *)
Definition SetStream_restarts `{UniformRandomVariable} : Prop :=
  forall (s1 s2 : RngStream) (stream : Z),
    0 <= stream -> SetStream s1 stream = SetStream s2 stream.

Section Objects.

Context `{UniformRandomVariable}.
Variable RelayInfo_default : RelayInfo.

(** The random selection objects of a simulation, by identity: the
    constructor gives each one a [UniformRandomVariable] of its own, its
    private member [m_rand]. *)
Definition Objects : Type := gmap nat RngStream.

(** A call of one of the two member functions on the object [this]. *)
Inductive Call : Type :=
| CallAssignStreams (this : nat) (stream : Z)
| CallSelectRelay (this : nat) (discoveredRelays : list RelayInfo).

Definition receiver (c : Call) : nat :=
  match c with
  | CallAssignStreams this _ => this
  | CallSelectRelay this _ => this
  end.

(** What a call answers. *)
Inductive Result : Type :=
| Assigned (n : Z)
| Selected (r : outcome RelayInfo)
| NoSuchObject.

(** A call on the objects: it reads and writes the [m_rand] of [this]. *)
Definition call (c : Call) (objs : Objects) : Result * Objects :=
  match c with
  | CallAssignStreams this stream =>
      match objs !! this with
      | Some m_rand =>
          let '(n, m_rand') := AssignStreams m_rand stream in
          (Assigned n, <[this := m_rand']> objs)
      | None => (NoSuchObject, objs)
      end
  | CallSelectRelay this discoveredRelays =>
      match objs !! this with
      | Some m_rand =>
          let '(r, m_rand') :=
            SelectRelay_Random RelayInfo_default m_rand discoveredRelays in
          (Selected r, <[this := m_rand']> objs)
      | None => (NoSuchObject, objs)
      end
  end.

(** A run of calls, in order, with the answer to each beside its
    receiver. *)
Fixpoint run (cs : list Call) (objs : Objects) : list (nat * Result) * Objects :=
  match cs with
  | [] => ([], objs)
  | c :: cs' =>
      let '(r, objs') := call c objs in
      let '(rs, objs'') := run cs' objs' in
      ((receiver c, r) :: rs, objs'')
  end.

(** The calls of a run that one object receives, and the answers it
    gives. *)
Definition calls_on (this : nat) (cs : list Call) : list Call :=
  List.filter (fun c => Nat.eqb (receiver c) this) cs.

Definition results_of (this : nat) (rs : list (nat * Result)) : list Result :=
  map snd (List.filter (fun x => Nat.eqb (fst x) this) rs).

(** What an object with stream [m_rand] answers to calls when no other
    object is there. *)
Fixpoint alone (cs : list Call) (m_rand : RngStream) : list Result :=
  match cs with
  | [] => []
  | CallAssignStreams _ stream :: cs' =>
      let '(n, m_rand') := AssignStreams m_rand stream in
      Assigned n :: alone cs' m_rand'
  | CallSelectRelay _ discoveredRelays :: cs' =>
      let '(r, m_rand') :=
        SelectRelay_Random RelayInfo_default m_rand discoveredRelays in
      Selected r :: alone cs' m_rand'
  end.

(** Over a sample of stream states: on how many of them [GetInteger (0, hi)]
    yields [k], and on how many the random algorithm returns [c] from
    [discoveredRelays]. *)
Definition draws (states : list RngStream) (hi k : Z) : nat :=
  length (List.filter (fun s => fst (GetInteger s 0 hi) =? k) states).

Definition selections (states : list RngStream)
    (discoveredRelays : list RelayInfo) (c : RelayInfo) : nat :=
  length (List.filter
            (fun s => bool_decide
                        (fst (SelectRelay_Random RelayInfo_default s discoveredRelays)
                         = Ret c))
            states).

(** [GetInteger (0, hi)] is uniform over a sample of stream states: every
    value of [[0, hi]] is drawn on equally many of them. *)
Definition uniform_over (states : list RngStream) (hi : Z) : Prop :=
  forall k k' : Z, 0 <= k <= hi -> 0 <= k' <= hi ->
    draws states hi k = draws states hi k'.

End Objects.

(** Six states of the linear congruential stream: [GetInteger (0, 2)]
    yields each of 0, 1 and 2 on two of them. *)
Definition lcg_sample : list (@RngStream Lcg) := [0; 1; 2; 3; 4; 5].

End RandomObjects.


(** ** The ProSe helper *)

Module Helper.

(** A [Ptr<NetDevice>], by the identity of the device it points to. *)
Definition NetDevice : Type := nat.
Definition Time : Type := Z.
Definition Ipv4Address : Type := Z.

(** [struct SidelinkInfo] of the NR module: the two members the helper
    writes, and the rest of the traffic profile. *)
Record SidelinkInfo : Type := mkSidelinkInfo {
  m_dstL2Id : Z;
  m_srcL2Id : Z;
  m_profile : Z
}.

(** Modelled from the spec: [NrSlUeProse::DiscoveryRole] is declared in
    nr-sl-ue-prose.h, which is not among the source files; the roles are
    those of the specification's DiscoveryEntry. *)
Inductive DiscoveryRole : Type :=
| Announcer | Monitor | Discoverer | Discoveree | RelayUE | RemoteUE.

(** What the helper reads from the RRC of a UE device. *)
Record UeRrc : Type := mkUeRrc {
  imsi : Z;            (* GetImsi *)
  sourceL2Id : Z       (* GetSourceL2Id *)
}.

(** The member functions of [NrSlUeProse] the helper calls directly.  The
    class is not among the source files: a ProSe layer is represented by the
    calls it received, in order. *)
Inductive ProseCall : Type :=
| SetImsi (imsi : Z)
| SetL2Id (l2Id : Z)
| AddDiscoveryApp (appCode dstL2Id : Z) (role : DiscoveryRole).

(** A call of [NrSlUeProse::AddDirectLinkConnection] with its arguments
    bound, as [Simulator::Schedule] keeps it. *)
Record AddDirectLinkConnection : Type := mkAddDirectLinkConnection {
  target : NetDevice;          (* the UE whose ProSe layer is called *)
  selfL2Id : Z;
  selfIp : Ipv4Address;
  peerL2Id : Z;
  isInitiating : bool;
  relayServiceCode : Z;
  slInfo : SidelinkInfo
}.

(** The simulation as the helper sees it: the RRC of every NR UE device, the
    ProSe layer aggregated to a device, and the events scheduled so far, in
    the order they were scheduled. *)
Record World : Type := mkWorld {
  rrc : gmap NetDevice UeRrc;
  prose : gmap NetDevice (list ProseCall);
  events : list (Time * AddDirectLinkConnection)
}.

(** Helper functions run on the world and may end it. *)
Definition M (A : Type) : Type := World -> outcome A * World.

Definition ret {A} (a : A) : M A := fun w => (Ret a, w).

Definition bind {A B} (m : M A) (k : A -> M B) : M B :=
  fun w =>
    match m w with
    | (Ret a, w') => k a w'
    | (OutOfRange, w') => (OutOfRange, w')
    | (FatalError msg, w') => (FatalError msg, w')
    | (NullPointer, w') => (NullPointer, w')
    | (Undefined, w') => (Undefined, w')
    end.

Notation "x <- m ;; k" := (bind m (fun x => k))
  (at level 100, m at next level, right associativity).
Notation "m ;;; k" := (bind m (fun _ => k))
  (at level 100, right associativity).

(** [NS_FATAL_ERROR (msg)] *)
Definition NS_FATAL_ERROR {A} (msg : string) : M A := fun w => (FatalError msg, w).

Definition undefined_behaviour {A} : M A := fun w => (Undefined, w).

(** [dev->GetObject<NrUeNetDevice> ()->GetRrc ()], null when the device is
    no NR UE device. *)
Definition GetRrc (dev : NetDevice) : M UeRrc :=
  fun w =>
    match rrc w !! dev with
    | Some r => (Ret r, w)
    | None => (NullPointer, w)
    end.

(** A member call through [dev->GetObject<NrSlUeProse> ()], null when no ProSe
    layer was installed on the device. *)
Definition call_prose (dev : NetDevice) (c : ProseCall) : M unit :=
  fun w =>
    match prose w !! dev with
    | Some calls =>
        (Ret tt, {| rrc := rrc w;
                    prose := <[dev := calls ++ [c]]> (prose w);
                    events := events w |})
    | None => (NullPointer, w)
    end.

(** [Simulator::Schedule (t, &NrSlUeProse::AddDirectLinkConnection, ...)] *)
Definition Schedule (t : Time) (e : AddDirectLinkConnection) : M unit :=
  fun w =>
    (Ret tt, {| rrc := rrc w; prose := prose w; events := events w ++ [(t, e)] |}).

Definition InvalidServiceCode : string :=
  "Please provide a relay service code greater than zero for U2N relay connection.".

(** [NrSlProseHelper::EstablishL3UeToNetworkRelayConnection].  The two
    [SidelinkInfo&] arguments are returned as the call leaves them. *)
Definition EstablishL3UeToNetworkRelayConnection
    (t : Time)
    (remoteUe : NetDevice) (remoteUeIp : Ipv4Address) (remoteUeSlInfo : SidelinkInfo)
    (relayUe : NetDevice) (relayUeIp : Ipv4Address) (relayUeSlInfo : SidelinkInfo)
    (relayServiceCode : Z) : M (SidelinkInfo * SidelinkInfo) :=
  if relayServiceCode <=? 0
  then NS_FATAL_ERROR InvalidServiceCode
  else
    remoteUeRrc <- GetRrc remoteUe ;;
    relayUeRrc <- GetRrc relayUe ;;
    call_prose remoteUe (SetImsi (imsi remoteUeRrc)) ;;;
    call_prose relayUe (SetImsi (imsi relayUeRrc)) ;;;
    let remoteUeL2Id := sourceL2Id remoteUeRrc in
    let relayUeL2Id := sourceL2Id relayUeRrc in
    call_prose remoteUe (SetL2Id remoteUeL2Id) ;;;
    call_prose relayUe (SetL2Id relayUeL2Id) ;;;
    let remoteUeSlInfo' :=
      {| m_dstL2Id := relayUeL2Id; m_srcL2Id := remoteUeL2Id;
         m_profile := m_profile remoteUeSlInfo |} in
    let relayUeSlInfo' :=
      {| m_dstL2Id := remoteUeL2Id; m_srcL2Id := relayUeL2Id;
         m_profile := m_profile relayUeSlInfo |} in
    (* Remote UE (Initiating UE) *)
    Schedule t {| target := remoteUe; selfL2Id := remoteUeL2Id; selfIp := remoteUeIp;
                  peerL2Id := relayUeL2Id; isInitiating := true;
                  relayServiceCode := relayServiceCode; slInfo := remoteUeSlInfo' |} ;;;
    (* Relay UE (Target UE) *)
    Schedule t {| target := relayUe; selfL2Id := relayUeL2Id; selfIp := relayUeIp;
                  peerL2Id := remoteUeL2Id; isInitiating := false;
                  relayServiceCode := relayServiceCode; slInfo := relayUeSlInfo' |} ;;;
    ret (remoteUeSlInfo', relayUeSlInfo').

(** [NrSlProseHelper::StartDiscoveryApp] *)
Definition StartDiscoveryApp (ueDevice : NetDevice) (appCode dstL2Id : Z)
    (role : DiscoveryRole) : M unit :=
  r <- GetRrc ueDevice ;;
  call_prose ueDevice (SetL2Id (sourceL2Id r)) ;;;
  r' <- GetRrc ueDevice ;;
  call_prose ueDevice (SetImsi (imsi r')) ;;;
  call_prose ueDevice (AddDiscoveryApp appCode dstL2Id role).

(** The loop of [NrSlProseHelper::StartDiscovery]: [it] and [dst] are what
    the two iterators have left to visit; [*dst] with [dst] at the end of
    [dstL2Ids] is undefined behaviour. *)
Fixpoint StartDiscovery_loop (ueDevice : NetDevice) (it dst : list Z)
    (role : DiscoveryRole) : M unit :=
  match it with
  | [] => ret tt
  | appCode :: it' =>
      match dst with
      | [] => undefined_behaviour
      | dstL2Id :: dst' =>
          StartDiscoveryApp ueDevice appCode dstL2Id role ;;;
          StartDiscovery_loop ueDevice it' dst' role
      end
  end.

(** [NrSlProseHelper::StartDiscovery] *)
Definition StartDiscovery (ueDevice : NetDevice) (appCodes dstL2Ids : list Z)
    (role : DiscoveryRole) : M unit :=
  StartDiscovery_loop ueDevice appCodes dstL2Ids role.

(** The discovery applications started on a ProSe layer, in order. *)
Definition discovery_apps (calls : list ProseCall) : list (Z * Z * DiscoveryRole) :=
  flat_map (fun c => match c with
                     | AddDiscoveryApp a dl r => [(a, dl, r)]
                     | _ => []
                     end) calls.

(** A device on which the helper can work: an NR UE device with a ProSe
    layer installed. *)
Definition prepared (w : World) (dev : NetDevice) : Prop :=
  is_Some (rrc w !! dev) /\ is_Some (prose w !! dev).

(** Two prepared UEs: device 0 with IMSI 1 and L2 ID 11, device 1 with IMSI 2
    and L2 ID 12; nothing called, nothing scheduled. *)
Definition two_ues : World :=
  {| rrc := {[ 0%nat := {| imsi := 1; sourceL2Id := 11 |};
               1%nat := {| imsi := 2; sourceL2Id := 12 |} ]};
     prose := {[ 0%nat := []; 1%nat := [] ]};
     events := [] |}.

End Helper.

(** ** The direct link state machine *)

Module DirectLink.

Definition EndpointId : Type := Z.
Definition Address : Type := Z.
Definition Time : Type := Z.

(** Modelled from the spec: the class NrSlUeProseDirectLink is not among the
    source files.  The role of a link and its states are those of the
    specification's DirectLinkStateMachine:
    Idle, AwaitingResponse (initiating side only), Established. *)
Inductive Role : Type := Initiating | Target.

(** Modelled from the spec: the states of a link, "Idle -> (Initiating)
    AwaitingResponse -> Established". *)
Inductive LinkState : Type := Idle | AwaitingResponse | Established.


(** Modelled from the spec: the Establishment-Request message
    [{localId, peerId, localAddress, relayServiceCode?}]. *)
Record EstablishmentRequest : Type := mkEstablishmentRequest {
  req_localId : EndpointId;
  req_peerId : EndpointId;
  req_localAddress : Address;
  req_relayServiceCode : option Z
}.

(** Modelled from the spec: the three messages of the establishment, with
    Accept carrying [{localAddress}]. *)
Inductive Message : Type :=
| Request (r : EstablishmentRequest)
| Accept (localAddress : Address)
| Reject.

(** Modelled from the spec: what a link tells its controller, and the
    relay path configuration it triggers. *)
Inductive Notification : Type :=
| NotifyEstablished
| NotifyFailure
| ConfigureRelayPath (serviceCode : Z).

(** Modelled from the spec: the DirectLink record of the data model.  The
    timer handle is the expiry time of the scheduled event, when one is
    armed. *)
Record DirectLink : Type := mkDirectLink {
  localId : EndpointId;
  peerId : EndpointId;
  role : Role;
  state : LinkState;
  relayServiceCode : option Z;
  localAddress : Address;
  peerAddress : option Address;
  retransmitTimer : option Time;
  retransmitCount : Z
}.

(** A link with the messages it sent and the notifications it raised. *)
Record Effects : Type := mkEffects {
  link : DirectLink;
  sent : list Message;
  notified : list Notification
}.

Definition quiet (l : DirectLink) : Effects :=
  {| link := l; sent := []; notified := [] |}.

Definition request_of (l : DirectLink) : EstablishmentRequest :=
  {| req_localId := localId l; req_peerId := peerId l;
     req_localAddress := localAddress l;
     req_relayServiceCode := relayServiceCode l |}.

Definition relay_path (code : option Z) : list Notification :=
  match code with Some c => [ConfigureRelayPath c] | None => [] end.

Definition set_state (l : DirectLink) (s : LinkState) (peer : option Address)
    (timer : option Time) (count : Z) : DirectLink :=
  {| localId := localId l; peerId := peerId l; role := role l; state := s;
     relayServiceCode := relayServiceCode l; localAddress := localAddress l;
     peerAddress := peer; retransmitTimer := timer; retransmitCount := count |}.

(** Modelled from the spec: what reaches a link, that is the controller's
    [start ()], the expiry of its timer, or a message of its peer (an
    Establishment-Request comes with the verdict of the validation "a
    peer-pair link does not already exist"). *)
Inductive Event : Type :=
| Start
| TimerExpiry
| RecvAccept (peerAddress : Address)
| RecvReject
| RecvRequest (r : EstablishmentRequest) (acceptable : bool).

Section Machine.

(** The period of the retransmission timer. *)
Variable T5080 : Time.

(** Modelled from the spec: the transitions of section 4.3, at time [now].
    Initiating side: [start ()] takes Idle to AwaitingResponse, sends the
    request and arms T5080; an expiry in AwaitingResponse resends the same
    request and arms T5080 again; an Accept in AwaitingResponse cancels the
    timer, records the peer address, establishes the link and notifies
    (with the relay path when a service code is set); a Reject in
    AwaitingResponse cancels the timer, returns the link to Idle and
    notifies the failure.  Target side: a request in Idle is answered by
    Accept and establishes the link when acceptable, by Reject otherwise.
    Anything else leaves the link as it is. *)
Definition step (now : Time) (e : Event) (l : DirectLink) : Effects :=
  match e, role l, state l with
  | Start, Initiating, Idle =>
      {| link := set_state l AwaitingResponse (peerAddress l)
                           (Some (now + T5080)) (retransmitCount l);
         sent := [Request (request_of l)];
         notified := [] |}
  | TimerExpiry, Initiating, AwaitingResponse =>
      {| link := set_state l AwaitingResponse (peerAddress l)
                           (Some (now + T5080)) (retransmitCount l + 1);
         sent := [Request (request_of l)];
         notified := [] |}
  | RecvAccept a, Initiating, AwaitingResponse =>
      {| link := set_state l Established (Some a) None (retransmitCount l);
         sent := [];
         notified := NotifyEstablished :: relay_path (relayServiceCode l) |}
  | RecvReject, Initiating, AwaitingResponse =>
      {| link := set_state l Idle (peerAddress l) None (retransmitCount l);
         sent := [];
         notified := [NotifyFailure] |}
  | RecvRequest r true, Target, Idle =>
      {| link := set_state l Established (Some (req_localAddress r)) None
                           (retransmitCount l);
         sent := [Accept (localAddress l)];
         notified := NotifyEstablished :: relay_path (req_relayServiceCode r) |}
  | RecvRequest r false, Target, Idle =>
      {| link := l; sent := [Reject]; notified := [] |}
  | _, _, _ => quiet l
  end.

(** Modelled from the spec: a link on the simulated clock of the
    discrete-event scheduler, with the messages it sent so far, each with
    the time it was sent at. *)
Record Sim : Type := mkSim {
  clock : Time;
  sim_link : DirectLink;
  log : list (Time * Message)
}.

(** An event delivered at time [at]. *)
Definition deliver (at_ : Time) (e : Event) (s : Sim) : Sim :=
  let r := step at_ e (sim_link s) in
  {| clock := at_;
     sim_link := link r;
     log := log s ++ map (fun m => (at_, m)) (sent r) |}.

(** Modelled from the spec: the clock advanced to [until] with no message
    arriving; the timer fires each time its expiry is reached, in time
    order.  [fuel] bounds the number of expiries;
    [None] when it runs out. *)
Fixpoint advance (fuel : nat) (until : Time) (s : Sim) : option Sim :=
  match retransmitTimer (sim_link s) with
  | Some expiry =>
      if expiry <=? until
      then match fuel with
           | O => None
           | S fuel' => advance fuel' until (deliver expiry TimerExpiry s)
           end
      else Some {| clock := until; sim_link := sim_link s; log := log s |}
  | None => Some {| clock := until; sim_link := sim_link s; log := log s |}
  end.

(** A run of events, each at its time. *)
Fixpoint run (es : list (Time * Event)) (l : DirectLink) : DirectLink :=
  match es with
  | [] => l
  | (t, e) :: es' => run es' (link (step t e l))
  end.

End Machine.

(** A fresh link: Idle, no peer address, no timer. *)
Definition new_link (local peer : EndpointId) (r : Role) (code : option Z)
    (addr : Address) : DirectLink :=
  {| localId := local; peerId := peer; role := r; state := Idle;
     relayServiceCode := code; localAddress := addr; peerAddress := None;
     retransmitTimer := None; retransmitCount := 0 |}.

(** The retransmissions expected after a request first sent at [t0]: one per
    period, at [t0 + T5080], [t0 + 2 * T5080], ... *)
Fixpoint retransmissions (T5080 : Time) (t0 : Time) (m : Message) (n : nat)
    : list (Time * Message) :=
  match n with
  | O => []
  | S n' => (t0 + T5080, m) :: retransmissions T5080 (t0 + T5080) m n'
  end.

(** The link of the specification's end-to-end scenario: endpoint 1
    initiates a link to endpoint 2 for relay service 5. *)
Definition example_link : DirectLink :=
  new_link 1 2 Initiating (Some 5) 100.

End DirectLink.

(** ** The per-endpoint controller *)

Module ProseController.

Import DirectLink.

(** Modelled from the spec: the class NrSlUeProse is not among the source
    files.  A controller owns the links of one endpoint, keyed by peer, and
    the relay services it offers. *)
Record Controller : Type := mkController {
  self : EndpointId;
  ready : bool;
  links : gmap EndpointId DirectLink;
  relayServices : gmap Z Z
}.

Inductive Status : Type := Created | AlreadyExists.

(** Modelled from the spec: [addDirectLinkConnection (peerId, localAddress,
    isInitiating, relayServiceCode, qosParams)] "creates a DirectLink if one
    does not already exist for peerId; if isInitiating, immediately calls
    start () on its state machine; fails (signals AlreadyExists) if a link to
    that peer already exists".  The result is the status, the controller
    after the call and the messages sent. *)
Definition addDirectLinkConnection (T5080 now : Time) (c : Controller)
    (peer : EndpointId) (localAddr : Address) (isInitiating : bool)
    (relayServiceCode : option Z) (qosParams : Z)
    : Status * Controller * list Message :=
  match links c !! peer with
  | Some _ => (AlreadyExists, c, [])
  | None =>
      let l := new_link (self c) peer (if isInitiating then Initiating else Target)
                        relayServiceCode localAddr in
      let r := if isInitiating then step T5080 now Start l else quiet l in
      (Created,
       {| self := self c; ready := ready c;
          links := <[peer := link r]> (links c);
          relayServices := relayServices c |},
       sent r)
  end.




End ProseController.


(** ** Ties among candidates *)

(** No two different eligible candidates of [l] have rsrp values that
    compare equal (NaN measurements, which compare with nothing, apart). *)
Definition tie_free (l : list RelaySelection.RelayInfo) : Prop :=
  forall x y : RelaySelection.RelayInfo,
    In x l -> In y l ->
    RelaySelection.eligible x = true -> RelaySelection.eligible y = true ->
    Double.is_nan (RelaySelection.rsrp x) = false ->
    Double.is_nan (RelaySelection.rsrp y) = false ->
    Double.gt (RelaySelection.rsrp x) (RelaySelection.rsrp y) = false ->
    Double.gt (RelaySelection.rsrp y) (RelaySelection.rsrp x) = false ->
    x = y.

(** ** Direct links set up by the helper *)

Module DirectLinkSetup.

Import Helper.

(** [NrSlProseHelper::EstablishRealDirectLink] on two separate
    [SidelinkInfo] objects, which are returned as the call leaves them;
    [ByReference] below has the references themselves. *)
Definition EstablishRealDirectLink
    (time : Time)
    (initUe : NetDevice) (initUeIp : Ipv4Address) (initSlInfo : SidelinkInfo)
    (trgtUe : NetDevice) (trgtUeIp : Ipv4Address) (trgtSlInfo : SidelinkInfo)
    : M (SidelinkInfo * SidelinkInfo) :=
  initUeRrc <- GetRrc initUe ;;
  trgtUeRrc <- GetRrc trgtUe ;;
  call_prose initUe (SetImsi (imsi initUeRrc)) ;;;
  call_prose trgtUe (SetImsi (imsi trgtUeRrc)) ;;;
  let initUeL2Id := sourceL2Id initUeRrc in
  let trgtUeL2Id := sourceL2Id trgtUeRrc in
  call_prose initUe (SetL2Id initUeL2Id) ;;;
  call_prose trgtUe (SetL2Id trgtUeL2Id) ;;;
  let initSlInfo' :=
    {| m_dstL2Id := trgtUeL2Id; m_srcL2Id := initUeL2Id;
       m_profile := m_profile initSlInfo |} in
  let trgtSlInfo' :=
    {| m_dstL2Id := initUeL2Id; m_srcL2Id := trgtUeL2Id;
       m_profile := m_profile trgtSlInfo |} in
  (* Initiating UE *)
  Schedule time {| target := initUe; selfL2Id := initUeL2Id; selfIp := initUeIp;
                   peerL2Id := trgtUeL2Id; isInitiating := true;
                   relayServiceCode := 0; slInfo := initSlInfo' |} ;;;
  (* Target UE *)
  Schedule time {| target := trgtUe; selfL2Id := trgtUeL2Id; selfIp := trgtUeIp;
                   peerL2Id := initUeL2Id; isInitiating := false;
                   relayServiceCode := 0; slInfo := trgtSlInfo' |} ;;;
  ret (initSlInfo', trgtSlInfo').

(** A scheduled call with another relay service code. *)
Definition with_code (code : Z) (e : Time * AddDirectLinkConnection)
    : Time * AddDirectLinkConnection :=
  (fst e,
   {| target := target (snd e); selfL2Id := selfL2Id (snd e);
      selfIp := selfIp (snd e); peerL2Id := peerL2Id (snd e);
      isInitiating := isInitiating (snd e); relayServiceCode := code;
      slInfo := slInfo (snd e) |}).

(** Two scheduled calls that set up the two ends of one link: each names
    the other as its peer, the first initiates, and the sidelink
    information of each end goes from itself to its peer. *)
Definition two_ends (e1 e2 : AddDirectLinkConnection) : Prop :=
  selfL2Id e1 = peerL2Id e2 /\ peerL2Id e1 = selfL2Id e2 /\
  isInitiating e1 = true /\ isInitiating e2 = false /\
  relayServiceCode e1 = relayServiceCode e2 /\
  m_srcL2Id (slInfo e1) = selfL2Id e1 /\ m_dstL2Id (slInfo e1) = peerL2Id e1 /\
  m_srcL2Id (slInfo e2) = selfL2Id e2 /\ m_dstL2Id (slInfo e2) = peerL2Id e2.

(** *** The two references

    [initSlInfo] and [trgtSlInfo] are references: the caller binds them to
    [SidelinkInfo] objects of its own, to two or to one and the same.  The
    caller's objects are named by their address. *)
Definition Ref : Type := nat.
Definition Objects : Type := gmap Ref SidelinkInfo.

(** [s.m_dstL2Id = v] and [s.m_srcL2Id = v] *)
Definition set_m_dstL2Id (v : Z) (s : SidelinkInfo) : SidelinkInfo :=
  {| m_dstL2Id := v; m_srcL2Id := m_srcL2Id s; m_profile := m_profile s |}.

Definition set_m_srcL2Id (v : Z) (s : SidelinkInfo) : SidelinkInfo :=
  {| m_dstL2Id := m_dstL2Id s; m_srcL2Id := v; m_profile := m_profile s |}.

(** An assignment through a reference, and the copy [Simulator::Schedule]
    takes of the object a reference is bound to; a reference bound to no
    object is undefined behaviour. *)
Definition assign (ref : Ref) (f : SidelinkInfo -> SidelinkInfo) (objs : Objects)
    : M Objects :=
  match objs !! ref with
  | Some s => ret (<[ref := f s]> objs)
  | None => undefined_behaviour
  end.

Definition copy (ref : Ref) (objs : Objects) : M SidelinkInfo :=
  match objs !! ref with
  | Some s => ret s
  | None => undefined_behaviour
  end.

Module ByReference.

(** [NrSlProseHelper::EstablishRealDirectLink], with the caller's objects
    before and after the call. *)
Definition EstablishRealDirectLink
    (time : Time)
    (initUe : NetDevice) (initUeIp : Ipv4Address) (initSlInfo : Ref)
    (trgtUe : NetDevice) (trgtUeIp : Ipv4Address) (trgtSlInfo : Ref)
    (objs : Objects) : M Objects :=
  initUeRrc <- GetRrc initUe ;;
  trgtUeRrc <- GetRrc trgtUe ;;
  call_prose initUe (SetImsi (imsi initUeRrc)) ;;;
  call_prose trgtUe (SetImsi (imsi trgtUeRrc)) ;;;
  let initUeL2Id := sourceL2Id initUeRrc in
  let trgtUeL2Id := sourceL2Id trgtUeRrc in
  call_prose initUe (SetL2Id initUeL2Id) ;;;
  call_prose trgtUe (SetL2Id trgtUeL2Id) ;;;
  objs <- assign initSlInfo (set_m_dstL2Id trgtUeL2Id) objs ;;
  objs <- assign initSlInfo (set_m_srcL2Id initUeL2Id) objs ;;
  objs <- assign trgtSlInfo (set_m_dstL2Id initUeL2Id) objs ;;
  objs <- assign trgtSlInfo (set_m_srcL2Id trgtUeL2Id) objs ;;
  (* Initiating UE *)
  info <- copy initSlInfo objs ;;
  Schedule time {| target := initUe; selfL2Id := initUeL2Id; selfIp := initUeIp;
                   peerL2Id := trgtUeL2Id; isInitiating := true;
                   relayServiceCode := 0; slInfo := info |} ;;;
  (* Target UE *)
  info <- copy trgtSlInfo objs ;;
  Schedule time {| target := trgtUe; selfL2Id := trgtUeL2Id; selfIp := trgtUeIp;
                   peerL2Id := initUeL2Id; isInitiating := false;
                   relayServiceCode := 0; slInfo := info |} ;;;
  ret objs.

End ByReference.

(** The caller's objects of the example: two [SidelinkInfo] with traffic
    profiles 9 and 7. *)
Definition two_infos : Objects :=
  {[ 0%nat := mkSidelinkInfo 0 0 9; 1%nat := mkSidelinkInfo 0 0 7 ]}.

End DirectLinkSetup.

(** ** Relay traces *)

Module RelayTrace.

(** What one statement [outFile << ... << std::endl] puts into a file: the
    column headings or the columns of a record, in the order they are
    written, tab separated.  The time is kept in nanoseconds (the file shows
    it in seconds) and numbers are kept as numbers: their text is the
    stream's business. *)
Inductive Line : Type :=
| Heading (columns : list string)
| DiscoveryRecord (now remoteL2Id relayL2Id relayCode : Z) (rsrp : Double.double)
| SelectionRecord (now remoteL2Id currentRelayL2Id selectedRelayL2Id relayCode : Z)
                  (rsrpValue : Double.double)
| RsrpRecord (now remoteL2Id relayL2Id : Z) (rsrpValue : Double.double).

(** The files by name, and the names that can be opened for writing. *)
Record FileSystem : Type := mkFileSystem {
  files : gmap string (list Line);
  can_open : string -> bool
}.

Definition content (fs : FileSystem) (name : string) : list Line :=
  default [] (files fs !! name).

(** [outFile.open (name)]: the file is created or emptied; [None] when
    [is_open ()] is false afterwards. *)
Definition open_truncate (name : string) (fs : FileSystem) : option FileSystem :=
  if can_open fs name
  then Some {| files := <[name := []]> (files fs); can_open := can_open fs |}
  else None.

(** [outFile.open (name, std::ios_base::app)]: the file is created when
    absent and kept as it is otherwise. *)
Definition open_append (name : string) (fs : FileSystem) : option FileSystem :=
  if can_open fs name
  then Some {| files := <[name := content fs name]> (files fs);
               can_open := can_open fs |}
  else None.

(** [outFile << ... << std::endl] on the open file [name]. *)
Definition put_line (name : string) (l : Line) (fs : FileSystem) : FileSystem :=
  {| files := <[name := content fs name ++ [l]]> (files fs);
     can_open := can_open fs |}.

(** The members of [NrSlRelayTrace]. *)
Record NrSlRelayTrace : Type := mkNrSlRelayTrace {
  m_nrSlRelayDiscoveryFilename : string;
  m_relayDiscoveryFirstWrite : bool;
  m_nrSlRelaySelectionFilename : string;
  m_relaySelectionFirstWrite : bool;
  m_nrSlRelayRsrpFilename : string;
  m_relayRsrpFirstWrite : bool
}.

(** The constructor, followed by the attributes' values for the names. *)
Definition new_trace (discovery selection rsrp : string) : NrSlRelayTrace :=
  {| m_nrSlRelayDiscoveryFilename := discovery;
     m_relayDiscoveryFirstWrite := true;
     m_nrSlRelaySelectionFilename := selection;
     m_relaySelectionFirstWrite := true;
     m_nrSlRelayRsrpFilename := rsrp;
     m_relayRsrpFirstWrite := true |}.

(** The attributes' initial values. *)
Definition default_trace : NrSlRelayTrace :=
  new_trace "NrSlRelayDiscoveryTrace.txt" "NrSlRelaySelectionTrace.txt"
            "NrSlRelayRsrpTrace.txt".

Definition discovery_heading : Line :=
  Heading ["Time (s)"; "RemoteL2ID"; "DiscoveredRelayL2ID"; "RelayCode"; "RSRP"].

Definition selection_heading : Line :=
  Heading ["Time (s)"; "RemoteL2ID"; "CurrentRelayL2ID"; "NewRelayL2ID";
           "NewRelayCode"; "NewRSRP"].

Definition rsrp_heading : Line :=
  Heading ["Time (s)"; "RemoteL2ID"; "RelayL2ID"; "RSRP"].

(** [NrSlRelayTrace::RelayDiscoveryTrace] at simulation time [now]. *)
Definition RelayDiscoveryTrace (now : Z) (remoteL2Id relayL2Id relayCode : Z)
    (rsrp : Double.double) (this : NrSlRelayTrace) (fs : FileSystem)
    : NrSlRelayTrace * FileSystem :=
  let name := m_nrSlRelayDiscoveryFilename this in
  let record := DiscoveryRecord now remoteL2Id relayL2Id relayCode rsrp in
  if Bool.eqb (m_relayDiscoveryFirstWrite this) true
  then
    match open_truncate name fs with
    | None => (this, fs)
    | Some fs1 =>
        ({| m_nrSlRelayDiscoveryFilename := m_nrSlRelayDiscoveryFilename this;
            m_relayDiscoveryFirstWrite := false;
            m_nrSlRelaySelectionFilename := m_nrSlRelaySelectionFilename this;
            m_relaySelectionFirstWrite := m_relaySelectionFirstWrite this;
            m_nrSlRelayRsrpFilename := m_nrSlRelayRsrpFilename this;
            m_relayRsrpFirstWrite := m_relayRsrpFirstWrite this |},
         put_line name record (put_line name discovery_heading fs1))
    end
  else
    match open_append name fs with
    | None => (this, fs)
    | Some fs1 => (this, put_line name record fs1)
    end.

(** [NrSlRelayTrace::RelaySelectionTrace] at simulation time [now]. *)
Definition RelaySelectionTrace (now : Z)
    (remoteL2Id currentRelayL2Id selectedRelayL2Id relayCode : Z)
    (rsrpValue : Double.double) (this : NrSlRelayTrace) (fs : FileSystem)
    : NrSlRelayTrace * FileSystem :=
  let name := m_nrSlRelaySelectionFilename this in
  let record := SelectionRecord now remoteL2Id currentRelayL2Id selectedRelayL2Id
                                relayCode rsrpValue in
  if Bool.eqb (m_relaySelectionFirstWrite this) true
  then
    match open_truncate name fs with
    | None => (this, fs)
    | Some fs1 =>
        ({| m_nrSlRelayDiscoveryFilename := m_nrSlRelayDiscoveryFilename this;
            m_relayDiscoveryFirstWrite := m_relayDiscoveryFirstWrite this;
            m_nrSlRelaySelectionFilename := m_nrSlRelaySelectionFilename this;
            m_relaySelectionFirstWrite := false;
            m_nrSlRelayRsrpFilename := m_nrSlRelayRsrpFilename this;
            m_relayRsrpFirstWrite := m_relayRsrpFirstWrite this |},
         put_line name record (put_line name selection_heading fs1))
    end
  else
    match open_append name fs with
    | None => (this, fs)
    | Some fs1 => (this, put_line name record fs1)
    end.

(** [NrSlRelayTrace::RelayRsrpTrace] at simulation time [now]. *)
Definition RelayRsrpTrace (now : Z) (remoteL2Id relayL2Id : Z)
    (rsrpValue : Double.double) (this : NrSlRelayTrace) (fs : FileSystem)
    : NrSlRelayTrace * FileSystem :=
  let name := m_nrSlRelayRsrpFilename this in
  let record := RsrpRecord now remoteL2Id relayL2Id rsrpValue in
  if Bool.eqb (m_relayRsrpFirstWrite this) true
  then
    match open_truncate name fs with
    | None => (this, fs)
    | Some fs1 =>
        ({| m_nrSlRelayDiscoveryFilename := m_nrSlRelayDiscoveryFilename this;
            m_relayDiscoveryFirstWrite := m_relayDiscoveryFirstWrite this;
            m_nrSlRelaySelectionFilename := m_nrSlRelaySelectionFilename this;
            m_relaySelectionFirstWrite := m_relaySelectionFirstWrite this;
            m_nrSlRelayRsrpFilename := m_nrSlRelayRsrpFilename this;
            m_relayRsrpFirstWrite := false |},
         put_line name record (put_line name rsrp_heading fs1))
    end
  else
    match open_append name fs with
    | None => (this, fs)
    | Some fs1 => (this, put_line name record fs1)
    end.

(** A firing of one of the three trace sources the helper connects in
    [EnableRelayTraces], as its callback receives it: the context path and
    the values. *)
Inductive Fired : Type :=
| RelayDiscoveryFired (path : string) (remoteL2Id relayL2Id relayCode : Z)
                      (rsrp : Double.double)
| RelaySelectionFired (path : string)
                      (remoteL2Id currentRelayL2Id selectedRelayL2Id relayCode : Z)
                      (rsrpValue : Double.double)
| RelayRsrpFired (path : string) (remoteL2Id relayL2Id : Z)
                 (rsrpValue : Double.double).

(** The static callbacks [RelayDiscoveryTraceCallback],
    [RelaySelectionTraceCallback] and [RelayRsrpTraceCallback], on the trace
    object bound to them. *)
Definition callback (now : Z) (f : Fired) (this : NrSlRelayTrace) (fs : FileSystem)
    : NrSlRelayTrace * FileSystem :=
  match f with
  | RelayDiscoveryFired _ remoteL2Id relayL2Id relayCode rsrp =>
      RelayDiscoveryTrace now remoteL2Id relayL2Id relayCode rsrp this fs
  | RelaySelectionFired _ remoteL2Id currentRelayL2Id selectedRelayL2Id relayCode
                        rsrpValue =>
      RelaySelectionTrace now remoteL2Id currentRelayL2Id selectedRelayL2Id
                          relayCode rsrpValue this fs
  | RelayRsrpFired _ remoteL2Id relayL2Id rsrpValue =>
      RelayRsrpTrace now remoteL2Id relayL2Id rsrpValue this fs
  end.

(** A simulation's firings, each at its time, in the order they happen. *)
Fixpoint run (fired : list (Z * Fired)) (this : NrSlRelayTrace) (fs : FileSystem)
    : NrSlRelayTrace * FileSystem :=
  match fired with
  | [] => (this, fs)
  | (now, f) :: rest =>
      let '(this', fs') := callback now f this fs in
      run rest this' fs'
  end.

(** The records the firings ask for, per file. *)
Definition discovery_records (fired : list (Z * Fired)) : list Line :=
  flat_map (fun e => match snd e with
                     | RelayDiscoveryFired _ a b c r => [DiscoveryRecord (fst e) a b c r]
                     | _ => []
                     end) fired.

Definition selection_records (fired : list (Z * Fired)) : list Line :=
  flat_map (fun e => match snd e with
                     | RelaySelectionFired _ a b c d' r =>
                         [SelectionRecord (fst e) a b c d' r]
                     | _ => []
                     end) fired.

Definition rsrp_records (fired : list (Z * Fired)) : list Line :=
  flat_map (fun e => match snd e with
                     | RelayRsrpFired _ a b r => [RsrpRecord (fst e) a b r]
                     | _ => []
                     end) fired.

(** What a trace file holds after a run that asked for [records] on a trace
    that had not written yet: what it held before when nothing was asked
    for, the heading and the records otherwise. *)
Definition traced (before : option (list Line)) (heading : Line)
    (records : list Line) : option (list Line) :=
  match records with
  | [] => before
  | _ :: _ => Some (heading :: records)
  end.

(** The three traces share one shape: a first-write flag, a file name, a
    heading and the record asked for. *)
Inductive Kind : Type := Discovery | Selection | Rsrp.

Definition kind_eqb (k k' : Kind) : bool :=
  match k, k' with
  | Discovery, Discovery | Selection, Selection | Rsrp, Rsrp => true
  | _, _ => false
  end.

Definition first_write (k : Kind) (this : NrSlRelayTrace) : bool :=
  match k with
  | Discovery => m_relayDiscoveryFirstWrite this
  | Selection => m_relaySelectionFirstWrite this
  | Rsrp => m_relayRsrpFirstWrite this
  end.

Definition file_name (k : Kind) (this : NrSlRelayTrace) : string :=
  match k with
  | Discovery => m_nrSlRelayDiscoveryFilename this
  | Selection => m_nrSlRelaySelectionFilename this
  | Rsrp => m_nrSlRelayRsrpFilename this
  end.

Definition heading (k : Kind) : Line :=
  match k with
  | Discovery => discovery_heading
  | Selection => selection_heading
  | Rsrp => rsrp_heading
  end.

Definition kind_of (f : Fired) : Kind :=
  match f with
  | RelayDiscoveryFired _ _ _ _ _ => Discovery
  | RelaySelectionFired _ _ _ _ _ _ => Selection
  | RelayRsrpFired _ _ _ _ => Rsrp
  end.

Definition record_of (now : Z) (f : Fired) : Line :=
  match f with
  | RelayDiscoveryFired _ a b c r => DiscoveryRecord now a b c r
  | RelaySelectionFired _ a b c d' r => SelectionRecord now a b c d' r
  | RelayRsrpFired _ a b r => RsrpRecord now a b r
  end.

Definition records (k : Kind) (fired : list (Z * Fired)) : list Line :=
  flat_map (fun e => if kind_eqb (kind_of (snd e)) k
                     then [record_of (fst e) (snd e)] else []) fired.

(** What the file of a trace holds after [asked] records were asked for,
    from the first-write flag and what the file held before. *)
Definition after_records (first : bool) (before : option (list Line))
    (head : Line) (asked : list Line) : option (list Line) :=
  match asked with
  | [] => before
  | _ :: _ => Some (if first then head :: asked else default [] before ++ asked)
  end.

(** The trace object and the file system when the files that can be opened
    change between two runs. *)
Definition with_can_open (fs : FileSystem) (can : string -> bool) : FileSystem :=
  {| files := files fs; can_open := can |}.

End RelayTrace.

(** ** Relay discovery and relay service set up by the helper *)

Module RelaySetup.

Definition NetDevice : Type := Helper.NetDevice.
Definition Time : Type := Helper.Time.

(** [NrSlUeProse::DiscoveryModel], as the helper and the examples name its
    values. *)
Inductive DiscoveryModel : Type := ModelA | ModelB.

(** A [Ptr<NrSlUeProseRelaySelectionAlgorithm>] and a
    [Ptr<NrPointToPointEpcHelper>], by the identity of the object. *)
Definition AlgorithmPtr : Type := nat.
Definition EpcHelperPtr : Type := nat.

(** The member functions of [NrSlUeProse] the helper calls, with their
    arguments.  The class is not among the source files: a ProSe layer is
    represented by the calls it received, in order. *)
Inductive Call : Type :=
| Basic (c : Helper.ProseCall)
| RemoveDiscoveryApp (appCode : Z) (role : Helper.DiscoveryRole)
| AddRelayDiscovery (relayCode dstL2Id : Z) (model : DiscoveryModel)
                    (role : Helper.DiscoveryRole)
| RemoveRelayDiscovery (relayCode : Z) (role : Helper.DiscoveryRole)
| SetNetDevice (dev : NetDevice)
| ConfigureUnicast
| AddL3U2nRelayServiceConfiguration (relayServiceCode relayDrbId : Z)
| SetEpcHelper (epcHelper : option EpcHelperPtr)
| SetRelaySelectionAlgorithm (alg : AlgorithmPtr).

(** What the helper reads and sets on an NR UE device: its IMSI, its RRC,
    and whether [EnableUeSlRsrpMeasurements] was called on that RRC. *)
Record NrUeNetDevice : Type := mkNrUeNetDevice {
  GetImsi : Z;
  GetRrc : Helper.UeRrc;
  slRsrpMeasurements : bool
}.

(** A call of [ActivateEpsBearer (device, imsi, tft, bearer)] on the EPC
    helper. *)
Record Activation : Type := mkActivation {
  act_device : NetDevice;
  act_imsi : Z;
  act_tft : Z;
  act_bearer : Z
}.

(** A call of [NrSlProseHelper::StartRelayDiscovery] with its arguments
    bound, as [Simulator::Schedule] keeps it. *)
Record StartRelayDiscoveryCall : Type := mkStartRelayDiscoveryCall {
  ueDevice : NetDevice;
  relayCode : Z;
  dstL2Id : Z;
  model : DiscoveryModel;
  role : Helper.DiscoveryRole
}.

(** The helper with its member [m_epcHelper] and the simulation around it:
    the NR UE devices, the ProSe layer aggregated to a device, the bearers
    the EPC helper was asked to activate, and the scheduled events, each in
    the order of the calls. *)
Record World : Type := mkWorld {
  m_epcHelper : option EpcHelperPtr;
  devices : gmap NetDevice NrUeNetDevice;
  prose : gmap NetDevice (list Call);
  activated : list Activation;
  events : list (Time * StartRelayDiscoveryCall)
}.

Definition M (A : Type) : Type := World -> outcome A * World.

Definition ret {A} (a : A) : M A := fun w => (Ret a, w).

Definition bind {A B} (m : M A) (k : A -> M B) : M B :=
  fun w =>
    match m w with
    | (Ret a, w') => k a w'
    | (OutOfRange, w') => (OutOfRange, w')
    | (FatalError msg, w') => (FatalError msg, w')
    | (NullPointer, w') => (NullPointer, w')
    | (Undefined, w') => (Undefined, w')
    end.

Notation "x <- m ;; k" := (bind m (fun x => k))
  (at level 100, m at next level, right associativity).
Notation "m ;;; k" := (bind m (fun _ => k))
  (at level 100, right associativity).

(** [NS_ASSERT_MSG (condition, msg)], in a build with assertions: the
    message is printed and the process terminates. *)
Definition NS_ASSERT_MSG (condition : bool) (msg : string) : M unit :=
  fun w => if condition then (Ret tt, w) else (FatalError msg, w).

(** [v[i]] on a [std::vector]: undefined behaviour outside the vector. *)
Definition vector_index {A} (v : list A) (i : nat) : M A :=
  fun w =>
    match v !! i with
    | Some x => (Ret x, w)
    | None => (Undefined, w)
    end.

(** [dev->GetObject<NrUeNetDevice> ()], dereferenced. *)
Definition get_device (dev : NetDevice) : M NrUeNetDevice :=
  fun w =>
    match devices w !! dev with
    | Some d => (Ret d, w)
    | None => (NullPointer, w)
    end.

(** A member call through [dev->GetObject<NrSlUeProse> ()]. *)
Definition call_prose (dev : NetDevice) (c : Call) : M unit :=
  fun w =>
    match prose w !! dev with
    | Some calls =>
        (Ret tt, {| m_epcHelper := m_epcHelper w; devices := devices w;
                    prose := <[dev := calls ++ [c]]> (prose w);
                    activated := activated w; events := events w |})
    | None => (NullPointer, w)
    end.

(** [rrc->EnableUeSlRsrpMeasurements ()] on the RRC of [dev]. *)
Definition EnableUeSlRsrpMeasurements (dev : NetDevice) : M unit :=
  fun w =>
    match devices w !! dev with
    | Some d =>
        (Ret tt, {| m_epcHelper := m_epcHelper w;
                    devices := <[dev := {| GetImsi := GetImsi d; GetRrc := GetRrc d;
                                           slRsrpMeasurements := true |}]> (devices w);
                    prose := prose w;
                    activated := activated w; events := events w |})
    | None => (NullPointer, w)
    end.

Definition Schedule (t : Time) (e : StartRelayDiscoveryCall) : M unit :=
  fun w =>
    (Ret tt, {| m_epcHelper := m_epcHelper w; devices := devices w;
                prose := prose w; activated := activated w;
                events := events w ++ [(t, e)] |}).

(** [NrSlProseHelper::SetEpcHelper] *)
Definition SetEpcHelper_ (epcHelper : EpcHelperPtr) : M unit :=
  fun w =>
    (Ret tt, {| m_epcHelper := Some epcHelper; devices := devices w;
                prose := prose w; activated := activated w;
                events := events w |}).

(** [NrSlProseHelper::PrepareSingleUeForUnicast] *)
Definition PrepareSingleUeForUnicast (nrUeDev : NetDevice) : M unit :=
  _ <- get_device nrUeDev ;;
  call_prose nrUeDev ConfigureUnicast.

(** [NrSlProseHelper::PrepareUesForUnicast] *)
Fixpoint PrepareUesForUnicast (c : list NetDevice) : M unit :=
  match c with
  | [] => ret tt
  | netDev :: c' => PrepareSingleUeForUnicast netDev ;;; PrepareUesForUnicast c'
  end.

(** [NrSlProseHelper::StartRelayDiscovery] *)
Definition StartRelayDiscovery (ueDevice : NetDevice) (relayCode dstL2Id : Z)
    (model : DiscoveryModel) (role : Helper.DiscoveryRole) : M unit :=
  d <- get_device ueDevice ;;
  let ueRrc := GetRrc d in
  let srcL2Id := Helper.sourceL2Id ueRrc in
  call_prose ueDevice (Basic (Helper.SetL2Id srcL2Id)) ;;;
  call_prose ueDevice (Basic (Helper.SetImsi (Helper.imsi ueRrc))) ;;;
  call_prose ueDevice (AddRelayDiscovery relayCode dstL2Id model role) ;;;
  call_prose ueDevice (SetNetDevice ueDevice).

(** The elements of the [std::set<uint32_t>] built from a vector, in the
    order its iterator visits them: ascending, each once. *)
Definition std_set (v : list Z) : list Z := merge_sort Z.le (remove_dups v).

Definition no_epc_helper : string :=
  "dedicated EPS bearers cannot be set up when the EPC is not used".

Section WithEpcHelper.

(** The bearer id [ActivateEpsBearer] answers, from the activations it was
    asked for before and the one it is asked for: the EPC helper is not
    among the source files. *)
Variable drb_id : list Activation -> Activation -> Z.

(** [m_epcHelper->ActivateEpsBearer (device, imsi, tft, bearer)] *)
Definition ActivateEpsBearer (dev : NetDevice) (imsi tft bearer : Z) : M Z :=
  fun w =>
    match m_epcHelper w with
    | Some _ =>
        let a := {| act_device := dev; act_imsi := imsi;
                    act_tft := tft; act_bearer := bearer |} in
        (Ret (drb_id (activated w) a),
         {| m_epcHelper := m_epcHelper w; devices := devices w;
            prose := prose w; activated := activated w ++ [a];
            events := events w |})
    | None => (NullPointer, w)
    end.

(** The calls the inner loop below makes on the ProSe layer of a device for
    [codes], when [asked] are the activations asked for so far and [a] is
    the activation it asks for each time. *)
Fixpoint configurations (asked : list Activation) (a : Activation)
    (codes : list Z) : list Call :=
  match codes with
  | [] => []
  | code :: codes' =>
      AddL3U2nRelayServiceConfiguration code (drb_id asked a)
      :: configurations (asked ++ [a]) a codes'
  end.

(** The inner loop of [ConfigureL3UeToNetworkRelay], over what is left of
    the set of relay service codes. *)
Fixpoint configure_codes (dev : NetDevice) (imsi : Z) (codes : list Z)
    (bearer tft : Z) : M unit :=
  match codes with
  | [] => ret tt
  | code :: codes' =>
      relayDrbId <- ActivateEpsBearer dev imsi tft bearer ;;
      call_prose dev (AddL3U2nRelayServiceConfiguration code relayDrbId) ;;;
      configure_codes dev imsi codes' bearer tft
  end.

(** The outer loop of [ConfigureL3UeToNetworkRelay], over what is left of
    the devices. *)
Fixpoint configure_devices (relayUeDevices : list NetDevice)
    (relayServiceCodes : list Z) (bearer tft : Z) : M unit :=
  match relayUeDevices with
  | [] => ret tt
  | dev :: rest =>
      d <- get_device dev ;;
      configure_codes dev (GetImsi d) relayServiceCodes bearer tft ;;;
      (fun w => call_prose dev (SetEpcHelper (m_epcHelper w)) w) ;;;
      configure_devices rest relayServiceCodes bearer tft
  end.

(** [NrSlProseHelper::ConfigureL3UeToNetworkRelay]; [relayServiceCodes] are
    the elements of the set in the order of its iterator. *)
Definition ConfigureL3UeToNetworkRelay (relayUeDevices : list NetDevice)
    (relayServiceCodes : list Z) (bearer tft : Z) : M unit :=
  (fun w => NS_ASSERT_MSG (bool_decide (is_Some (m_epcHelper w))) no_epc_helper w) ;;;
  configure_devices relayUeDevices relayServiceCodes bearer tft.

(** The first loop of [StartRemoteRelayConnection], at index [i] with
    [relayDevices] from that index on. *)
Fixpoint schedule_relays (i : nat) (relayDevices : list NetDevice)
    (relayTime : list Time) (relayCodes dstL2Ids : list Z)
    (discoveryModel : DiscoveryModel) : M unit :=
  match relayDevices with
  | [] => ret tt
  | dev :: rest =>
      t <- vector_index relayTime i ;;
      c <- vector_index relayCodes i ;;
      dl <- vector_index dstL2Ids i ;;
      Schedule t {| ueDevice := dev; relayCode := c; dstL2Id := dl;
                    model := discoveryModel; role := Helper.RelayUE |} ;;;
      schedule_relays (S i) rest relayTime relayCodes dstL2Ids discoveryModel
  end.

(** The inner loop of the second loop: [n] relays left, at index [k], for
    the remote device [dev] at index [j]. *)
Fixpoint schedule_remote (n k : nat) (dev : NetDevice) (j : nat)
    (remoteTime : list Time) (relayCodes dstL2Ids : list Z)
    (discoveryModel : DiscoveryModel) : M unit :=
  match n with
  | O => ret tt
  | S n' =>
      t <- vector_index remoteTime j ;;
      c <- vector_index relayCodes k ;;
      dl <- vector_index dstL2Ids k ;;
      Schedule t {| ueDevice := dev; relayCode := c; dstL2Id := dl;
                    model := discoveryModel; role := Helper.RemoteUE |} ;;;
      schedule_remote n' (S k) dev j remoteTime relayCodes dstL2Ids discoveryModel
  end.

(** The second loop, at index [j] with [remoteDevices] from that index on;
    [n] is [relayDevices.GetN ()]. *)
Fixpoint schedule_remotes (j : nat) (remoteDevices : list NetDevice) (n : nat)
    (remoteTime : list Time) (relayCodes dstL2Ids : list Z)
    (discoveryModel : DiscoveryModel) : M unit :=
  match remoteDevices with
  | [] => ret tt
  | dev :: rest =>
      schedule_remote n 0 dev j remoteTime relayCodes dstL2Ids discoveryModel ;;;
      schedule_remotes (S j) rest n remoteTime relayCodes dstL2Ids discoveryModel
  end.

(** The last loop: the selection algorithm and the RSRP measurements of the
    remote UEs. *)
Fixpoint set_selection (remoteDevices : list NetDevice)
    (selectionAlgorithm : AlgorithmPtr) : M unit :=
  match remoteDevices with
  | [] => ret tt
  | dev :: rest =>
      _ <- get_device dev ;;
      call_prose dev (SetRelaySelectionAlgorithm selectionAlgorithm) ;;;
      EnableUeSlRsrpMeasurements dev ;;;
      set_selection rest selectionAlgorithm
  end.

(** [NrSlProseHelper::StartRemoteRelayConnection] *)
Definition StartRemoteRelayConnection
    (remoteDevices : list NetDevice) (remoteTime : list Time)
    (relayDevices : list NetDevice) (relayTime : list Time)
    (relayCodes dstL2Ids : list Z) (discoveryModel : DiscoveryModel)
    (selectionAlgorithm : AlgorithmPtr) (tft bearer : Z) : M unit :=
  schedule_relays 0 relayDevices relayTime relayCodes dstL2Ids discoveryModel ;;;
  schedule_remotes 0 remoteDevices (length relayDevices)
                   remoteTime relayCodes dstL2Ids discoveryModel ;;;
  ConfigureL3UeToNetworkRelay relayDevices (std_set relayCodes) bearer tft ;;;
  set_selection remoteDevices selectionAlgorithm.

End WithEpcHelper.

(** The discovery starts the first loop schedules: relay [i] with code [i]
    and destination [i] at time [i]. *)
Definition relay_starts (relayDevices : list NetDevice) (relayTime : list Time)
    (relayCodes dstL2Ids : list Z) (discoveryModel : DiscoveryModel)
    : list (Time * StartRelayDiscoveryCall) :=
  map (fun x => (fst (snd x),
                 {| ueDevice := fst x; relayCode := fst (snd (snd x));
                    dstL2Id := snd (snd (snd x));
                    model := discoveryModel; role := Helper.RelayUE |}))
      (combine relayDevices (combine relayTime (combine relayCodes dstL2Ids))).

(** The discovery starts the second loop schedules: for remote [j], at its
    time, one for each of the first [n] codes and destinations. *)
Definition remote_starts (remoteDevices : list NetDevice) (remoteTime : list Time)
    (n : nat) (relayCodes dstL2Ids : list Z) (discoveryModel : DiscoveryModel)
    : list (Time * StartRelayDiscoveryCall) :=
  flat_map (fun x =>
              map (fun y => (snd x,
                             {| ueDevice := fst x; relayCode := fst y;
                                dstL2Id := snd y;
                                model := discoveryModel;
                                role := Helper.RemoteUE |}))
                  (firstn n (combine relayCodes dstL2Ids)))
           (combine remoteDevices remoteTime).

(** The world with more events scheduled. *)
Definition add_events (w : World) (es : list (Time * StartRelayDiscoveryCall))
    : World :=
  {| m_epcHelper := m_epcHelper w; devices := devices w; prose := prose w;
     activated := activated w; events := events w ++ es |}.

(** A world that differs from another in its scheduled events at most. *)
Definition same_but_events (w w' : World) : Prop :=
  m_epcHelper w' = m_epcHelper w /\ devices w' = devices w /\
  prose w' = prose w /\ activated w' = activated w.

(** A computation that leaves the scheduled events as they are, whatever
    its outcome. *)
Definition keeps_events {A} (m : M A) : Prop :=
  forall w : World, events (snd (m w)) = events w.

(** The activations [ConfigureL3UeToNetworkRelay] asks for: for each device
    in turn, one for each relay service code, all with the IMSI of the
    device. *)
Definition relay_activations (ds : gmap NetDevice NrUeNetDevice)
    (relayUeDevices : list NetDevice) (relayServiceCodes : list Z)
    (bearer tft : Z) : list Activation :=
  flat_map (fun dev =>
              match ds !! dev with
              | Some d => replicate (length relayServiceCodes)
                            {| act_device := dev; act_imsi := GetImsi d;
                               act_tft := tft; act_bearer := bearer |}
              | None => []
              end) relayUeDevices.

(** Every device of the list has its NR UE device and its ProSe layer. *)
Definition all_prepared (w : World) (devs : list NetDevice) : Prop :=
  forall dev, In dev devs ->
    is_Some (devices w !! dev) /\ is_Some (prose w !! dev).

(** The relay service codes configured on a ProSe layer, in order. *)
Definition configured_codes (calls : list Call) : list Z :=
  flat_map (fun c => match c with
                     | AddL3U2nRelayServiceConfiguration code _ => [code]
                     | _ => []
                     end) calls.

(** Two relay UEs (devices 1 and 2) and a remote UE (device 3), each with
    its ProSe layer, and a helper that was given an EPC helper. *)
Definition relays_and_remote : World :=
  {| m_epcHelper := Some 7%nat;
     devices := <[1%nat := mkNrUeNetDevice 1001 (Helper.mkUeRrc 1001 11) false]>
                (<[2%nat := mkNrUeNetDevice 1002 (Helper.mkUeRrc 1002 12) false]>
                (<[3%nat := mkNrUeNetDevice 1003 (Helper.mkUeRrc 1003 13) false]> ∅));
     prose := <[1%nat := []]> (<[2%nat := []]> (<[3%nat := [ConfigureUnicast]]> ∅));
     activated := [];
     events := [] |}.

(** An EPC helper that numbers the bearers it activates on a device from
    one. *)
Definition numbered_drb (asked : list Activation) (a : Activation) : Z :=
  Z.of_nat (length (List.filter (fun b => Nat.eqb (act_device b) (act_device a))
                                asked)) + 1.

End RelaySetup.


(** * Properties *)

(** ** Order facts of the comparisons on doubles *)

Import Double RelaySelection.

(** Case analysis on the operands of a comparison of doubles. *)
Ltac float_order :=
  repeat match goal with
         | b : bool |- _ => destruct b
         end;
  simpl in *; try congruence;
  repeat match goal with
         | H : context [Z.compare ?a ?b] |- _ =>
             destruct (Z.compare_spec a b); simpl in *; try congruence
         | |- context [Z.compare ?a ?b] =>
             destruct (Z.compare_spec a b); simpl in *; try congruence
         | H : context [Pos.compare_cont Eq ?a ?b] |- _ =>
             change (Pos.compare_cont Eq a b) with (Pos.compare a b) in *
         | |- context [Pos.compare_cont Eq ?a ?b] =>
             change (Pos.compare_cont Eq a b) with (Pos.compare a b) in *
         | H : context [Pos.compare ?a ?b] |- _ =>
             destruct (Pos.compare_spec a b); simpl in *; try congruence
         | |- context [Pos.compare ?a ?b] =>
             destruct (Pos.compare_spec a b); simpl in *; try congruence
         end;
  try lia.

Ltac by_float_cases :=
  unfold gt, lt, le, SFltb, SFleb, SFcompare;
  repeat match goal with
         | x : double |- _ => destruct x
         end;
  intros; float_order.

Lemma Double_gt_irrefl (a : double) : gt a a = false.
Proof. by_float_cases. Qed.

Lemma Double_gt_trans (a b c : double) :
  gt a b = true -> gt b c = true -> gt a c = true.
Proof. by_float_cases. Qed.

Lemma Double_gt_not_le (r m : double) : gt r m = true -> le r m = false.
Proof. by_float_cases. Qed.

(** [x <= m < r] (or [x] a NaN) leaves [r <= x] false. *)
Lemma Double_not_gt_lt_le (x m r : double) :
  gt x m = false -> gt r m = true -> le r x = false.
Proof. by_float_cases. Qed.

Lemma Double_le_false_gt (x m r : double) :
  le m x = false -> gt r m = true -> le r x = false.
Proof. by_float_cases. Qed.

Lemma Double_gt_nan_l (a : double) : gt nan a = false.
Proof. by_float_cases. Qed.

Lemma Double_gt_nan_r (a : double) : gt a nan = false.
Proof. by_float_cases. Qed.

(** On doubles that are no NaN the comparison is total. *)
Lemma Double_le_false_iff_gt (a b : double) :
  is_nan a = false -> is_nan b = false -> (le a b = false <-> gt a b = true).
Proof. unfold is_nan. intros Ha Hb. split; revert Ha Hb; by_float_cases. Qed.

(** The literals of the examples are binary64 values, ordered as the
    integers they stand for. *)
Example Double_literals :
  is_binary64 (of_Z (-80)) = true /\ is_binary64 (of_Z (-70)) = true /\
  is_binary64 (of_Z (-60)) = true /\ is_binary64 (of_Z (-90)) = true /\
  gt (of_Z (-70)) (of_Z (-80)) = true /\ gt (of_Z (-60)) (of_Z (-70)) = true /\
  gt (of_Z (-80)) (of_Z (-70)) = false /\ gt (of_Z (-80)) neg_infinity = true.
Proof. vm_compute. repeat split. Qed.

(** ** Relay selection *)

Section RelaySelectionFacts.

Context `{UniformRandomVariable}.
Variable d : RelayInfo.

Lemma vector_at_nth {A} (v : list A) (i : nat) (x : A) :
  nth_error v i = Some x -> vector_at v (Z.of_nat i) = Ret x.
Proof.
  intros Hx. unfold vector_at, vector_size.
  assert (i < length v)%nat by (apply nth_error_Some; congruence).
  rewrite Nat2Z.id, Hx.
  destruct (Z.leb_spec 0 (Z.of_nat i)); [|lia].
  destruct (Z.ltb_spec (Z.of_nat i) (Z.of_nat (length v))); [done|lia].
Qed.

Lemma vector_at_middle {A} (pre : list A) (x : A) (post : list A) :
  vector_at (pre ++ x :: post) (Z.of_nat (length pre)) = Ret x.
Proof.
  apply vector_at_nth. rewrite nth_error_app2 by lia.
  by rewrite Nat.sub_diag.
Qed.

(** The indexed loop never leaves the vector: it is the fold of its body. *)
Lemma MaxRsrp_for_fold (l pre : list RelayInfo) (st : RelayInfo * bool) :
  MaxRsrp_for (length l) (Z.of_nat (length pre)) (pre ++ l) st
  = Ret (MaxRsrp_fold l st).
Proof.
  revert pre st. induction l as [|x l IH]; intros pre st; simpl; [done|].
  rewrite vector_at_middle.
  replace (Z.of_nat (length pre) + 1) with (Z.of_nat (length (pre ++ [x])))
    by (rewrite length_app; simpl; lia).
  replace (pre ++ x :: l) with ((pre ++ [x]) ++ l) by (by rewrite <- app_assoc).
  apply IH.
Qed.

Lemma MaxRsrp_loop_fold (l : list RelayInfo) :
  MaxRsrp_loop d l = Ret (MaxRsrp_fold l (d, false)).
Proof. apply (MaxRsrp_for_fold l []). Qed.

Lemma SelectRelay_MaxRsrp_fold (l : list RelayInfo) :
  SelectRelay_MaxRsrp d l = Ret (fst (MaxRsrp_fold l (d, false))).
Proof.
  unfold SelectRelay_MaxRsrp. rewrite MaxRsrp_loop_fold.
  by destruct (MaxRsrp_fold l (d, false)).
Qed.

Lemma MaxRsrp_fold_snoc (l : list RelayInfo) (x : RelayInfo) (st : RelayInfo * bool) :
  MaxRsrp_fold (l ++ [x]) st = MaxRsrp_body (MaxRsrp_fold l st) x.
Proof. unfold MaxRsrp_fold. by rewrite fold_left_app. Qed.

(** The body copies the four members: the new [relay] is the candidate. *)
Lemma MaxRsrp_body_cases (relay : RelayInfo) (found : bool) (x : RelayInfo) :
  (gt (rsrp x) (rsrp relay) = true /\ eligible x = true /\
   MaxRsrp_body (relay, found) x = (x, true)) \/
  ((gt (rsrp x) (rsrp relay) = false \/ eligible x = false) /\
   MaxRsrp_body (relay, found) x = (relay, found)).
Proof.
  unfold MaxRsrp_body.
  destruct (gt (rsrp x) (rsrp relay)) eqn:Hgt, (eligible x) eqn:He; simpl;
    [left | right; auto ..].
  repeat split. destruct x; simpl in *. by rewrite He.
Qed.

Lemma MaxRsrp_inv_fold (l : list RelayInfo) :
  MaxRsrp_inv d l (MaxRsrp_fold l (d, false)).
Proof.
  induction l as [|x l IH] using rev_ind.
  - simpl. split; [done|]. intros x [].
  - rewrite MaxRsrp_fold_snoc.
    destruct (MaxRsrp_fold l (d, false)) as [relay found].
    destruct (MaxRsrp_body_cases relay found x) as [(Hgt & He & ->)|(Hno & ->)].
    + (* [x] replaces [relay] *)
      simpl. destruct found; simpl in IH.
      * destruct IH as (Hd & before & after & -> & Her & Hb & Ha).
        split; [by eapply Double_gt_trans|].
        exists (before ++ relay :: after), []. repeat split; auto.
        -- intros y Hy Hey. apply in_app_or in Hy as [Hy|[<-|Hy]].
           ++ eapply Double_le_false_gt; eauto.
           ++ by apply Double_gt_not_le.
           ++ eapply Double_not_gt_lt_le; eauto.
        -- intros y [].
      * destruct IH as (-> & Hall).
        split; [done|].
        exists l, []. repeat split; auto.
        -- intros y Hy Hey. eapply Double_not_gt_lt_le; eauto.
        -- intros y [].
    + (* [x] is passed over *)
      destruct found; simpl in *.
      * destruct IH as (Hd & before & after & -> & Her & Hb & Ha).
        split; [done|].
        exists before, (after ++ [x]). repeat split; auto.
        -- by rewrite <- app_assoc.
        -- intros y Hy Hey. apply in_app_or in Hy as [Hy|[<-|[]]]; [by auto|].
           destruct Hno as [Hno|Hno]; congruence.
      * destruct IH as (-> & Hall). split; [done|].
        intros y Hy Hey. apply in_app_or in Hy as [Hy|[<-|[]]]; [by auto|].
        destruct Hno as [Hno|Hno]; congruence.
Qed.


Lemma MaxRsrp_selected_in (l : list RelayInfo) (c : RelayInfo) :
  first_strongest_eligible l c -> In c l /\ eligible c = true.
Proof.
  intros (before & after & -> & He & _). split; [|done].
  apply in_or_app. right. by left.
Qed.

Lemma vector_at_In {A} (v : list A) (i : Z) (x : A) :
  vector_at v i = Ret x -> In x v.
Proof.
  unfold vector_at.
  destruct ((0 <=? i) && (i <? vector_size v)); [|done].
  destruct (nth_error v (Z.to_nat i)) as [y|] eqn:Hy; [|done].
  intros [= <-]. by eapply nth_error_In.
Qed.



(** C2.  The running best of the maximum RSRP algorithm starts as a
    default-constructed [RelayInfo] and is replaced only by a candidate of
    strictly greater rsrp; so, on every list, visiting a candidate whose rsrp
    is not strictly greater than the default's leaves the locals as they
    were, and when no eligible candidate is stronger than the default the
    algorithm returns the default-constructed [RelayInfo] with [found] false,
    eligible candidates or not. *)
Theorem C2_MaxRsrp_default_rsrp_is_a_floor (l : list RelayInfo) :
  MaxRsrp_loop d [] = Ret (d, false) /\
  (forall relay found x,
      MaxRsrp_body (relay, found) x <> (relay, found) ->
      gt (rsrp x) (rsrp relay) = true /\ MaxRsrp_body (relay, found) x = (x, true)) /\
  (forall before c after,
      l = before ++ c :: after ->
      gt (rsrp c) (rsrp d) = false ->
      MaxRsrp_fold (before ++ [c]) (d, false) = MaxRsrp_fold before (d, false)) /\
  ((forall c, In c l -> eligible c = true -> gt (rsrp c) (rsrp d) = false) ->
   MaxRsrp_loop d l = Ret (d, false) /\ SelectRelay_MaxRsrp d l = Ret d).
Proof.
  split; [done|]. split; [|split].
  - intros relay found x Hne.
    destruct (MaxRsrp_body_cases relay found x) as [(Hgt & _ & Hb)|(_ & Hb)]; [done|].
    by rewrite Hb in Hne.
  - intros before c after _ Hc.
    rewrite MaxRsrp_fold_snoc.
    pose proof (MaxRsrp_inv_fold before) as Hinv.
    destruct (MaxRsrp_fold before (d, false)) as [relay found].
    destruct (MaxRsrp_body_cases relay found c) as [(Hgt & _ & _)|(_ & Hb)]; [|done].
    destruct found; simpl in Hinv.
    + destruct Hinv as [Hd _].
      rewrite (Double_gt_trans _ _ _ Hgt Hd) in Hc. done.
    + destruct Hinv as [-> _]. rewrite Hgt in Hc. done.
  - intros Hall.
    rewrite SelectRelay_MaxRsrp_fold, MaxRsrp_loop_fold.
    pose proof (MaxRsrp_inv_fold l) as Hinv.
    destruct (MaxRsrp_fold l (d, false)) as [relay [|]]; simpl in *.
    + destruct Hinv as [Hgt Hsel]. apply MaxRsrp_selected_in in Hsel as [Hin He].
      rewrite (Hall _ Hin He) in Hgt. done.
    + by destruct Hinv as [-> _].
Qed.

(** C3 (amended).  Every strategy returns a [RelayInfo], and "no selection" is
    the default-constructed [RelayInfo]: all three return it for the empty
    list.  The maximum RSRP algorithm returns it exactly when it selected
    nothing.  First-available and random return it also when the candidate
    they pick is itself equal to it, and return something else when no
    discovered candidate equals it. *)
Theorem C3_no_selection_is_the_default_RelayInfo (m_rand : RngStream) (l : list RelayInfo) :
  SelectRelay d FirstAvailable [] = (Ret d, FirstAvailable) /\
  SelectRelay d (Random m_rand) [] = (Ret d, Random m_rand) /\
  SelectRelay d MaxRsrp [] = (Ret d, MaxRsrp) /\
  (exists relay found,
      MaxRsrp_loop d l = Ret (relay, found) /\
      SelectRelay_MaxRsrp d l = Ret relay /\
      (relay = d <-> found = false)) /\
  SelectRelay_FirstAvailable d (d :: l) = SelectRelay_FirstAvailable d [] /\
  (l <> [] -> ~ In d l ->
   SelectRelay_FirstAvailable d l <> Ret d /\
   fst (SelectRelay_Random d m_rand l) <> Ret d).
Proof.
  repeat split; try done.
  - rewrite SelectRelay_MaxRsrp_fold, MaxRsrp_loop_fold.
    pose proof (MaxRsrp_inv_fold l) as Hinv.
    destruct (MaxRsrp_fold l (d, false)) as [relay found].
    exists relay, found. repeat split.
    + intros ->. destruct found; [|done]. simpl in Hinv.
      destruct Hinv as [Hgt _]. by rewrite Double_gt_irrefl in Hgt.
    + intros ->. by destruct Hinv.
  - unfold SelectRelay_FirstAvailable.
    destruct l as [|x l']; [done|]. simpl.
    intros Hr. apply vector_at_In in Hr. done.
  - unfold SelectRelay_Random.
    destruct l as [|x l']; [done|]. cbn [vector_empty negb].
    destruct (GetInteger m_rand 0 _) as [i s']. simpl.
    intros Hr. apply vector_at_In in Hr. done.
Qed.

(** C4.  First-available returns the first element of every non-empty list
    and the default-constructed [RelayInfo] ("no selection") for the empty
    list; the maximum RSRP algorithm returns "no selection" for the empty
    list and for a list whose only candidate is not eligible. *)
Theorem C4_FirstAvailable_first_in_discovery_order :
  (forall x l, SelectRelay_FirstAvailable d (x :: l) = Ret x) /\
  SelectRelay_FirstAvailable d [] = Ret d /\
  SelectRelay_MaxRsrp d [] = Ret d /\
  (forall id code r,
      SelectRelay_MaxRsrp d [mkRelayInfo id code r false] = Ret d) /\
  SelectRelay_MaxRsrp d [candidate 1 (-90) false] = Ret d.
Proof.
  repeat split; try done.
  - intros id code r. rewrite SelectRelay_MaxRsrp_fold. simpl.
    by rewrite andb_false_r.
  - rewrite SelectRelay_MaxRsrp_fold.
    unfold MaxRsrp_fold, candidate, fold_left, MaxRsrp_body.
    cbn [eligible Bool.eqb]. by rewrite andb_false_r.
Qed.

(** Given that [GetInteger (min, max)] yields an integer of [[min, max]]:
    on a non-empty list the random algorithm draws once from [m_rand], the
    index lies in [[0, size - 1]], and the candidate at that index is
    returned. *)
Lemma Random_draw (Hrange : GetInteger_in_range) (m_rand : RngStream)
    (l : list RelayInfo) :
  l <> [] -> vector_size l <= 2 ^ 32 ->
  let draw := GetInteger m_rand 0 (vector_size l - 1) in
  0 <= fst draw <= vector_size l - 1 /\
  exists c, nth_error l (Z.to_nat (fst draw)) = Some c /\
            SelectRelay_Random d m_rand l = (Ret c, snd draw).
Proof.
  intros Hne Hsize draw.
  assert (0 < vector_size l) as Hpos.
  { unfold vector_size. destruct l; [done|]. simpl. lia. }
  assert (to_uint32 (vector_size l - 1) = vector_size l - 1) as Hcast.
  { unfold to_uint32. apply Z.mod_small. lia. }
  assert (0 <= fst draw <= vector_size l - 1) as Hi.
  { apply Hrange; lia. }
  split; [done|].
  destruct (nth_error l (Z.to_nat (fst draw))) as [c|] eqn:Hc.
  - exists c. split; [done|].
    unfold SelectRelay_Random. destruct l; [done|]. cbn [vector_empty negb].
    rewrite Hcast. fold draw. destruct draw as [i s'] eqn:Hdraw. simpl in *.
    f_equal. rewrite <- (Z2Nat.id i) by lia. by apply vector_at_nth.
  - apply nth_error_None in Hc. unfold vector_size in Hi. lia.
Qed.

End RelaySelectionFacts.

(** ** Random selection objects *)

Section RandomObjectsFacts.

Import RandomObjects.

Context `{UniformRandomVariable}.
Variable d : RelayInfo.

(** A call on another object leaves the stream of [this] alone. *)
Lemma call_other (this : nat) (c : Call) (objs : Objects) :
  receiver c <> this -> snd (call d c objs) !! this = objs !! this.
Proof.
  intros Hne. destruct c as [o stream|o l]; simpl in *; unfold Objects in *.
  - destruct (objs !! o) as [m|]; cbn [snd]; [|done].
    unfold AssignStreams. cbn [snd]. by rewrite lookup_insert_ne.
  - destruct (objs !! o) as [m|]; cbn [snd]; [|done].
    destruct (SelectRelay_Random d m l) as [r m']. cbn [snd].
    by rewrite lookup_insert_ne.
Qed.

(** In any run, the answers of an object are what it answers alone to the
    calls it received. *)
Lemma run_alone (this : nat) (cs : list Call) :
  forall (objs : Objects) (m_rand : RngStream),
    objs !! this = Some m_rand ->
    results_of this (fst (run d cs objs)) = alone d (calls_on this cs) m_rand.
Proof.
  unfold Objects in *.
  induction cs as [|c cs IH]; intros objs m_rand Hm; [done|].
  cbn [run calls_on List.filter].
  destruct (call d c objs) as [r objs'] eqn:Hcall.
  destruct (run d cs objs') as [rs objs''] eqn:Hrun.
  unfold results_of. cbn [fst List.filter].
  destruct (Nat.eqb_spec (receiver c) this) as [Heq|Hne].
  - cbn [map snd]. fold (results_of this rs). fold (calls_on this cs).
    replace rs with (fst (run d cs objs')) by (by rewrite Hrun).
    destruct c as [o stream|o l]; simpl in Heq; subst o; simpl in Hcall;
      unfold Objects in Hcall; rewrite Hm in Hcall; cbn [alone].
    + injection Hcall as <- <-. f_equal. apply IH. apply lookup_insert_eq.
    + destruct (SelectRelay_Random d m_rand l) as [r' m'].
      injection Hcall as <- <-. f_equal. apply IH. apply lookup_insert_eq.
  - fold (results_of this rs). fold (calls_on this cs).
    replace rs with (fst (run d cs objs')) by (by rewrite Hrun).
    apply IH. replace objs' with (snd (call d c objs)) by (by rewrite Hcall).
    by rewrite call_other.
Qed.

(** On a list without duplicates, the candidate at index [k] is returned on
    exactly the stream states on which the draw is [k]. *)
Lemma Random_selects_iff_drawn (Hrange : GetInteger_in_range)
    (l : list RelayInfo) (k : nat) (c : RelayInfo) (s : RngStream) :
  l <> [] -> vector_size l <= 2 ^ 32 -> NoDup l -> nth_error l k = Some c ->
  bool_decide (fst (SelectRelay_Random d s l) = Ret c)
  = (fst (GetInteger s 0 (vector_size l - 1)) =? Z.of_nat k).
Proof.
  intros Hne Hsize Hnd Hk.
  destruct (Random_draw d Hrange s l Hne Hsize) as (Hi & c' & Hc' & Hsel).
  rewrite Hsel. cbn [fst].
  destruct (Z.eqb_spec (fst (GetInteger s 0 (vector_size l - 1))) (Z.of_nat k))
    as [Heq|Hneq].
  - rewrite Heq, Nat2Z.id, Hk in Hc'. injection Hc' as <-.
    by apply bool_decide_eq_true.
  - apply bool_decide_eq_false. intros [= ->]. apply Hneq.
    apply NoDup_ListNoDup in Hnd.
    assert (Z.to_nat (fst (GetInteger s 0 (vector_size l - 1))) = k) as <-.
    { eapply (proj1 (List.NoDup_nth_error l) Hnd); [|congruence].
      apply nth_error_Some. congruence. }
    lia.
Qed.

(** C5.  Given ns-3's contracts for [GetInteger] (a value of [[min, max]])
    and for [SetStream] (a stream number that is not negative restarts the
    generator on that stream): on every non-empty list the random algorithm
    draws once from the [m_rand] of its object, the index lies in
    [[0, size - 1]] and the candidate at that index is returned; on the empty
    list it returns "no selection" and draws nothing.  The choice is as
    uniform as the draw: on a list without duplicates each candidate is
    returned on exactly the stream states that draw its index, hence equally
    often as any other where the draw is uniform.  The stream is private and
    seeding reproduces the selections: in two runs, whatever other objects
    do and whatever the object's stream held before, an object that is
    assigned the same stream number and then receives the same calls gives
    the same answers, selection by selection. *)
Theorem C5_Random_index_drawn_from_stream
    (Hrange : GetInteger_in_range) (Hstream : SetStream_restarts) :
  (forall (m_rand : RngStream) (l : list RelayInfo),
      l <> [] -> vector_size l <= 2 ^ 32 ->
      let draw := GetInteger m_rand 0 (vector_size l - 1) in
      0 <= fst draw <= vector_size l - 1 /\
      exists c, nth_error l (Z.to_nat (fst draw)) = Some c /\
                SelectRelay_Random d m_rand l = (Ret c, snd draw)) /\
  (forall m_rand : RngStream, SelectRelay_Random d m_rand [] = (Ret d, m_rand)) /\
  (forall (states : list RngStream) (l : list RelayInfo),
      l <> [] -> vector_size l <= 2 ^ 32 -> NoDup l ->
      (forall (k : nat) (c : RelayInfo),
          nth_error l k = Some c ->
          selections d states l c = draws states (vector_size l - 1) (Z.of_nat k)) /\
      (uniform_over states (vector_size l - 1) ->
       forall c c' : RelayInfo,
         In c l -> In c' l -> selections d states l c = selections d states l c')) /\
  (forall (this : nat) (stream : Z) (cs1 cs2 : list Call) (objs1 objs2 : Objects),
      0 <= stream ->
      is_Some (objs1 !! this) -> is_Some (objs2 !! this) ->
      calls_on this cs1 = calls_on this cs2 ->
      results_of this (fst (run d (CallAssignStreams this stream :: cs1) objs1))
      = results_of this (fst (run d (CallAssignStreams this stream :: cs2) objs2))) /\
  (forall (m_rand : RngStream) (stream : Z),
      fst (AssignStreams m_rand stream) = 1).
Proof.
  split; [|split; [done|split; [|split; [|done]]]].
  - intros m_rand l. by apply Random_draw.
  - intros states l Hne Hsize Hnd.
    assert (forall (k : nat) (c : RelayInfo),
               nth_error l k = Some c ->
               selections d states l c
               = draws states (vector_size l - 1) (Z.of_nat k)) as Hcount.
    { intros k c Hk. unfold selections, draws. f_equal.
      apply List.filter_ext. intros s.
      by apply Random_selects_iff_drawn. }
    split; [exact Hcount|].
    intros Huniform c c' Hc Hc'.
    apply In_nth_error in Hc as [k Hk], Hc' as [k' Hk'].
    rewrite (Hcount k c Hk), (Hcount k' c' Hk').
    assert (k < length l)%nat by (apply nth_error_Some; congruence).
    assert (k' < length l)%nat by (apply nth_error_Some; congruence).
    apply Huniform; unfold vector_size; lia.
  - intros this stream cs1 cs2 objs1 objs2 Hs [m1 Hm1] [m2 Hm2] Hcalls.
    rewrite (run_alone this _ objs1 m1 Hm1), (run_alone this _ objs2 m2 Hm2).
    unfold calls_on. cbn [List.filter receiver]. rewrite Nat.eqb_refl.
    fold (calls_on this cs1). fold (calls_on this cs2). rewrite Hcalls.
    cbn [alone AssignStreams]. by rewrite (Hstream m1 m2 stream Hs).
Qed.

End RandomObjectsFacts.

(** The example of the specification under the two defaults: candidate 2 is
    returned when the default rsrp is minus infinity, "no selection" when it
    is zero. *)
Example MaxRsrp_example_under_two_defaults :
  SelectRelay_MaxRsrp RelayInfo_minus_infinity example_candidates
  = Ret (candidate 2 (-70) true) /\
  SelectRelay_MaxRsrp RelayInfo_zero example_candidates = Ret RelayInfo_zero.
Proof. by vm_compute. Qed.



(** With the rsrp of the default at minus infinity, an eligible relay
    measured at minus infinity is passed over and the default is returned. *)
Lemma C2_MaxRsrp_witness :
  MaxRsrp_loop RelayInfo_minus_infinity
    [{| l2Id := 7; relayCode := 5; rsrp := neg_infinity; eligible := true |}]
  = Ret (RelayInfo_minus_infinity, false) /\
  SelectRelay_MaxRsrp RelayInfo_minus_infinity
    [{| l2Id := 7; relayCode := 5; rsrp := neg_infinity; eligible := true |}]
  = Ret RelayInfo_minus_infinity.
Proof.
  apply (C2_MaxRsrp_default_rsrp_is_a_floor RelayInfo_minus_infinity
           [{| l2Id := 7; relayCode := 5; rsrp := neg_infinity; eligible := true |}]).
  intros c [<-|[]] _. reflexivity.
Defined.

(** C3 as stated fails: with first-available, no test on the returned value
    tells the empty list from a non-empty one, whatever the
    default-constructed [RelayInfo] is. *)
Lemma C3_no_selection_counterexample :
  ~ (exists (d : RelayInfo) (selected : outcome RelayInfo -> bool),
        forall l, selected (SelectRelay_FirstAvailable d l) = negb (vector_empty l)).
Proof.
  intros (d & selected & Hsel).
  pose proof (Hsel []) as H0. pose proof (Hsel [d]) as H1.
  change (SelectRelay_FirstAvailable d [d]) with (SelectRelay_FirstAvailable d []) in H1.
  rewrite H0 in H1. done.
Qed.

Lemma Lcg_in_range : @GetInteger_in_range Lcg.
Proof.
  intros s lo hi Hlo Hhi. simpl.
  pose proof (Z.mod_pos_bound (lcg_next s) (hi - lo + 1)). lia.
Qed.

Lemma Lcg_restarts : @RandomObjects.SetStream_restarts Lcg.
Proof. by intros s1 s2 stream _. Qed.

Lemma lcg_sample_uniform :
  @RandomObjects.uniform_over Lcg RandomObjects.lcg_sample 2.
Proof.
  intros k k' Hk Hk'.
  assert (k = 0 \/ k = 1 \/ k = 2) as Hcase by lia.
  assert (k' = 0 \/ k' = 1 \/ k' = 2) as Hcase' by lia.
  destruct Hcase as [-> | [-> | ->]], Hcase' as [-> | [-> | ->]]; reflexivity.
Qed.

Lemma example_candidates_NoDup : NoDup example_candidates.
Proof.
  apply NoDup_ListNoDup.
  repeat constructor; simpl; intros Hin;
    repeat (destruct Hin as [Hin|Hin]; [discriminate Hin|]); done.
Qed.

(** On the linear congruential stream: in state 2 the draw over the example
    list is index 1; over the six sample states the first and the last
    candidate are selected equally often; and an object assigned stream 2
    selects the same candidates in a run where another object draws in
    between and in a run where it is alone and its stream held something else
    before. *)
Lemma C5_Random_witness :
  SelectRelay_Random RelayInfo_minus_infinity (2 : @RngStream Lcg) example_candidates
  = (Ret (candidate 2 (-70) true), lcg_next 2) /\
  RandomObjects.selections RelayInfo_minus_infinity RandomObjects.lcg_sample
    example_candidates (candidate 1 (-80) true)
  = RandomObjects.selections RelayInfo_minus_infinity RandomObjects.lcg_sample
      example_candidates (candidate 3 (-60) false) /\
  RandomObjects.results_of 0
    (fst (RandomObjects.run RelayInfo_minus_infinity
            [RandomObjects.CallAssignStreams 0 2;
             RandomObjects.CallSelectRelay 1 example_candidates;
             RandomObjects.CallSelectRelay 0 example_candidates;
             RandomObjects.CallSelectRelay 0 example_candidates]
            ({[ 0%nat := 5; 1%nat := 6 ]} : @RandomObjects.Objects Lcg)))
  = RandomObjects.results_of 0
      (fst (RandomObjects.run RelayInfo_minus_infinity
              [RandomObjects.CallAssignStreams 0 2;
               RandomObjects.CallSelectRelay 0 example_candidates;
               RandomObjects.CallSelectRelay 0 example_candidates]
              ({[ 0%nat := 77 ]} : @RandomObjects.Objects Lcg))).
Proof.
  destruct (C5_Random_index_drawn_from_stream RelayInfo_minus_infinity
              Lcg_in_range Lcg_restarts) as (Hsel & _ & Huniform & Hsame & _).
  split; [|split].
  - destruct (Hsel 2 example_candidates) as (_ & c & Hc & ->);
      [done | by vm_compute |].
    vm_compute in Hc. injection Hc as <-. reflexivity.
  - destruct (Huniform RandomObjects.lcg_sample example_candidates)
      as [_ Heq]; [done | by vm_compute | exact example_candidates_NoDup |].
    apply Heq; [exact lcg_sample_uniform | by left | by right; right; left].
  - apply (Hsame 0%nat 2
             [RandomObjects.CallSelectRelay 1 example_candidates;
              RandomObjects.CallSelectRelay 0 example_candidates;
              RandomObjects.CallSelectRelay 0 example_candidates]
             [RandomObjects.CallSelectRelay 0 example_candidates;
              RandomObjects.CallSelectRelay 0 example_candidates]);
      [lia | by eexists | by eexists | reflexivity].
Defined.

(** Neither first-available nor the maximum RSRP algorithm can throw: the
    index they pass to [at] is inside the vector. *)
Theorem X1_SelectRelay_returns (d : RelayInfo) (l : list RelayInfo) :
  (exists r, SelectRelay_FirstAvailable d l = Ret r) /\
  (exists r found, MaxRsrp_loop d l = Ret (r, found) /\
                   SelectRelay_MaxRsrp d l = Ret r /\
                   (r, found) = MaxRsrp_fold l (d, false)).
Proof.
  split.
  - destruct l as [|x l]; [by exists d | by exists x].
  - rewrite SelectRelay_MaxRsrp_fold, MaxRsrp_loop_fold.
    destruct (MaxRsrp_fold l (d, false)) as [r found]. by exists r, found.
Qed.

(** ** The ProSe helper *)

Section HelperFacts.

Import Helper.

Lemma call_prose_prepared (w : World) (dev : NetDevice) (c : ProseCall)
    (calls : list ProseCall) :
  prose w !! dev = Some calls ->
  call_prose dev c w
  = (Ret tt, {| rrc := rrc w; prose := <[dev := calls ++ [c]]> (prose w);
                events := events w |}).
Proof. intros Hp. unfold call_prose. by rewrite Hp. Qed.

Lemma call_prose_keeps (w : World) (dev : NetDevice) (c : ProseCall) :
  is_Some (prose w !! dev) ->
  exists w', call_prose dev c w = (Ret tt, w') /\
             rrc w' = rrc w /\ events w' = events w /\
             (forall dev', is_Some (prose w !! dev') -> is_Some (prose w' !! dev')).
Proof.
  intros [calls Hp]. eexists. split; [by apply call_prose_prepared|].
  repeat split. intros dev' Hd. simpl.
  destruct (decide (dev = dev')) as [->|Hne].
  - rewrite lookup_insert_eq. eauto.
  - by rewrite lookup_insert_ne.
Qed.

(** Only the check of the service code ends in a fatal error. *)
Lemma call_prose_not_fatal (w : World) (dev : NetDevice) (c : ProseCall) (msg : string) :
  fst (call_prose dev c w) <> FatalError msg.
Proof. unfold call_prose. by destruct (prose w !! dev). Qed.

Lemma GetRrc_not_fatal (w : World) (dev : NetDevice) (msg : string) :
  fst (GetRrc dev w) <> FatalError msg.
Proof. unfold GetRrc. by destruct (rrc w !! dev). Qed.

(** C6.  A relay connection requested with a service code that is zero or
    less ends in the fatal error at once, with the world as it was: no
    member of a ProSe layer was called and nothing was scheduled.  With a
    service code above zero the check passes (the call never ends in the
    fatal error) and, on two prepared UE devices, it returns with the two
    AddDirectLinkConnection calls scheduled at [t], last in the queue: the
    remote UE's as initiating UE, then the relay UE's as target, both with
    the service code. *)
Theorem C6_relay_service_code_checked_before_scheduling
    (w : World) (t : Time)
    (remoteUe : NetDevice) (remoteUeIp : Ipv4Address) (remoteUeSlInfo : SidelinkInfo)
    (relayUe : NetDevice) (relayUeIp : Ipv4Address) (relayUeSlInfo : SidelinkInfo)
    (code : Z) :
  let call := EstablishL3UeToNetworkRelayConnection
                t remoteUe remoteUeIp remoteUeSlInfo
                relayUe relayUeIp relayUeSlInfo code in
  (code <= 0 -> call w = (FatalError InvalidServiceCode, w)) /\
  (0 < code ->
   (forall msg, fst (call w) <> FatalError msg) /\
   (prepared w remoteUe -> prepared w relayUe ->
    exists remoteUeRrc relayUeRrc remoteUeSlInfo' relayUeSlInfo' w',
      rrc w !! remoteUe = Some remoteUeRrc /\
      rrc w !! relayUe = Some relayUeRrc /\
      call w = (Ret (remoteUeSlInfo', relayUeSlInfo'), w') /\
      events w' =
        events w ++
        [(t, {| target := remoteUe; selfL2Id := sourceL2Id remoteUeRrc;
                selfIp := remoteUeIp; peerL2Id := sourceL2Id relayUeRrc;
                isInitiating := true; relayServiceCode := code;
                slInfo := remoteUeSlInfo' |});
         (t, {| target := relayUe; selfL2Id := sourceL2Id relayUeRrc;
                selfIp := relayUeIp; peerL2Id := sourceL2Id remoteUeRrc;
                isInitiating := false; relayServiceCode := code;
                slInfo := relayUeSlInfo' |})] /\
      remoteUeSlInfo' = {| m_dstL2Id := sourceL2Id relayUeRrc;
                           m_srcL2Id := sourceL2Id remoteUeRrc;
                           m_profile := m_profile remoteUeSlInfo |} /\
      relayUeSlInfo' = {| m_dstL2Id := sourceL2Id remoteUeRrc;
                          m_srcL2Id := sourceL2Id relayUeRrc;
                          m_profile := m_profile relayUeSlInfo |})).
Proof.
  intros call. subst call. unfold EstablishL3UeToNetworkRelayConnection. split.
  - intros Hle. by destruct (Z.leb_spec code 0); [|lia].
  - intros Hpos. destruct (Z.leb_spec code 0) as [|_]; [lia|]. split.
    + intros msg. unfold bind, GetRrc, call_prose, Schedule, ret.
      repeat case_match; simplify_eq; simpl; congruence.
    + intros [[r1 Hr1] Hp1] [[r2 Hr2] Hp2].
      exists r1, r2. do 2 eexists.
      unfold bind at 1. unfold GetRrc at 1. rewrite Hr1.
      unfold bind at 1. unfold GetRrc at 1. rewrite Hr2.
      destruct (call_prose_keeps w remoteUe (SetImsi (imsi r1)) Hp1)
        as (w1 & E1 & Hrrc1 & Hev1 & Hk1).
      unfold bind at 1. rewrite E1.
      destruct (call_prose_keeps w1 relayUe (SetImsi (imsi r2)) (Hk1 _ Hp2))
        as (w2 & E2 & Hrrc2 & Hev2 & Hk2).
      unfold bind at 1. rewrite E2.
      destruct (call_prose_keeps w2 remoteUe (SetL2Id (sourceL2Id r1))
                  (Hk2 _ (Hk1 _ Hp1))) as (w3 & E3 & Hrrc3 & Hev3 & Hk3).
      unfold bind at 1. rewrite E3.
      destruct (call_prose_keeps w3 relayUe (SetL2Id (sourceL2Id r2))
                  (Hk3 _ (Hk2 _ (Hk1 _ Hp2)))) as (w4 & E4 & Hrrc4 & Hev4 & Hk4).
      unfold bind at 1. rewrite E4.
      unfold bind, Schedule, ret. simpl.
      eexists. repeat split; try done.
      rewrite Hev4, Hev3, Hev2, Hev1. by rewrite <- app_assoc.
Qed.

Lemma StartDiscoveryApp_prepared (w : World) (dev : NetDevice) (a dl : Z)
    (role : DiscoveryRole) (r : UeRrc) (calls : list ProseCall) :
  rrc w !! dev = Some r ->
  prose w !! dev = Some calls ->
  StartDiscoveryApp dev a dl role w
  = (Ret tt,
     {| rrc := rrc w;
        prose := <[dev := calls ++ [SetL2Id (sourceL2Id r); SetImsi (imsi r);
                                    AddDiscoveryApp a dl role]]> (prose w);
        events := events w |}).
Proof.
  intros Hr Hp. unfold StartDiscoveryApp, bind, GetRrc.
  rewrite Hr. rewrite (call_prose_prepared _ _ _ _ Hp). simpl. rewrite Hr.
  erewrite call_prose_prepared by (simpl; apply lookup_insert_eq). simpl.
  erewrite call_prose_prepared by (simpl; apply lookup_insert_eq). simpl.
  rewrite !insert_insert_eq. by rewrite <- !app_assoc.
Qed.

Lemma discovery_apps_app (c1 c2 : list ProseCall) :
  discovery_apps (c1 ++ c2) = discovery_apps c1 ++ discovery_apps c2.
Proof. apply flat_map_app. Qed.

Lemma nth_error_combine {A B} (la : list A) (lb : list B) (i : nat) (a : A) (b : B) :
  nth_error la i = Some a -> nth_error lb i = Some b ->
  nth_error (combine la lb) i = Some (a, b).
Proof.
  revert lb i. induction la as [|x la IH]; intros [|y lb] [|i]; simpl; try done.
  - by intros [= ->] [= ->].
  - apply IH.
Qed.

(** C10.  On a prepared device, [StartDiscovery] with at least as many
    destination L2 IDs as application codes returns, and has started exactly
    one discovery application per application code: the applications added
    to the ProSe layer are the i-th code with the i-th destination, in order,
    and nothing else of the world changed.  With fewer destinations than
    codes the call runs into undefined behaviour: the iterator over the
    destinations is dereferenced at its end. *)
Theorem C10_StartDiscovery_pairs_codes_with_destinations
    (ueDevice : NetDevice) (role : DiscoveryRole)
    (appCodes dstL2Ids : list Z) (w : World) (r : UeRrc) (calls : list ProseCall)
    (Hrrc : rrc w !! ueDevice = Some r)
    (Hprose : prose w !! ueDevice = Some calls) :
  ((length appCodes <= length dstL2Ids)%nat ->
   exists w' calls',
     StartDiscovery ueDevice appCodes dstL2Ids role w = (Ret tt, w') /\
     prose w' !! ueDevice = Some calls' /\
     discovery_apps calls'
     = discovery_apps calls
       ++ map (fun p => (fst p, snd p, role)) (combine appCodes dstL2Ids) /\
     length (combine appCodes dstL2Ids) = length appCodes /\
     (forall i a dl, nth_error appCodes i = Some a -> nth_error dstL2Ids i = Some dl ->
                     nth_error (combine appCodes dstL2Ids) i = Some (a, dl)) /\
     rrc w' = rrc w /\ events w' = events w /\
     (forall dev, dev <> ueDevice -> prose w' !! dev = prose w !! dev)) /\
  ((length dstL2Ids < length appCodes)%nat ->
   fst (StartDiscovery ueDevice appCodes dstL2Ids role w) = Undefined).
Proof.
  unfold StartDiscovery. split.
  - revert dstL2Ids w calls Hrrc Hprose.
    induction appCodes as [|a appCodes IH]; intros dstL2Ids w calls Hrrc Hprose Hlen.
    + exists w, calls. simpl. rewrite app_nil_r. repeat split; try done.
      intros [|i] ?? [=].
    + destruct dstL2Ids as [|dl dstL2Ids]; [simpl in Hlen; lia|].
      simpl in Hlen. cbn [StartDiscovery_loop]. unfold bind.
      rewrite (StartDiscoveryApp_prepared _ _ _ _ _ _ _ Hrrc Hprose).
      edestruct (IH dstL2Ids) as (w' & calls' & -> & Hc & Happs & Hl & _ & Hr' & He' & Ho);
        [exact Hrrc | simpl; apply lookup_insert_eq | lia |].
      exists w', calls'. repeat split; try done.
      * rewrite Happs, !discovery_apps_app. simpl. by rewrite <- app_assoc.
      * simpl. by rewrite Hl.
      * intros i x y. apply nth_error_combine.
      * intros dev Hne. rewrite (Ho dev Hne). simpl. by rewrite lookup_insert_ne.
  - revert dstL2Ids w calls Hrrc Hprose.
    induction appCodes as [|a appCodes IH]; intros dstL2Ids w calls Hrrc Hprose Hlen.
    + simpl in Hlen. lia.
    + destruct dstL2Ids as [|dl dstL2Ids]; [done|].
      simpl in Hlen. cbn [StartDiscovery_loop]. unfold bind.
      rewrite (StartDiscoveryApp_prepared _ _ _ _ _ _ _ Hrrc Hprose).
      eapply IH; [exact Hrrc | simpl; apply lookup_insert_eq | lia].
Qed.

End HelperFacts.

(** On the two prepared UEs: service code 0 aborts and leaves the world as it
    was, service code 7 schedules both calls at time 5. *)
Lemma C6_relay_connection_witness :
  Helper.EstablishL3UeToNetworkRelayConnection
    5 0%nat 100 (Helper.mkSidelinkInfo 0 0 9) 1%nat 200 (Helper.mkSidelinkInfo 0 0 9) 0
    Helper.two_ues
  = (FatalError Helper.InvalidServiceCode, Helper.two_ues) /\
  exists w',
    Helper.EstablishL3UeToNetworkRelayConnection
      5 0%nat 100 (Helper.mkSidelinkInfo 0 0 9) 1%nat 200 (Helper.mkSidelinkInfo 0 0 9) 7
      Helper.two_ues
    = (Ret (Helper.mkSidelinkInfo 12 11 9, Helper.mkSidelinkInfo 11 12 9), w') /\
    Helper.events w'
    = [(5, Helper.mkAddDirectLinkConnection 0%nat 11 100 12 true 7
             (Helper.mkSidelinkInfo 12 11 9));
       (5, Helper.mkAddDirectLinkConnection 1%nat 12 200 11 false 7
             (Helper.mkSidelinkInfo 11 12 9))].
Proof.
  split.
  - apply (C6_relay_service_code_checked_before_scheduling
             Helper.two_ues 5 0%nat 100 (Helper.mkSidelinkInfo 0 0 9)
             1%nat 200 (Helper.mkSidelinkInfo 0 0 9) 0).
    lia.
  - destruct (C6_relay_service_code_checked_before_scheduling
                Helper.two_ues 5 0%nat 100 (Helper.mkSidelinkInfo 0 0 9)
                1%nat 200 (Helper.mkSidelinkInfo 0 0 9) 7) as [_ Hpos].
    destruct Hpos as [_ Hsched]; [lia|].
    destruct Hsched as (r1 & r2 & s1 & s2 & w' & Hr1 & Hr2 & Hcall & Hev & -> & ->).
    + split; eexists; reflexivity.
    + split; eexists; reflexivity.
    + vm_compute in Hr1. vm_compute in Hr2.
      injection Hr1 as <-. injection Hr2 as <-.
      exists w'. split; [exact Hcall | exact Hev].
Defined.

(** Two application codes and three destinations on device 0: codes 101
    and 102 are started towards 501 and 502. *)
Lemma C10_StartDiscovery_witness :
  exists w' calls',
    Helper.StartDiscovery 0%nat [101; 102] [501; 502; 503] Helper.Announcer Helper.two_ues
    = (Ret tt, w') /\
    Helper.prose w' !! 0%nat = Some calls' /\
    Helper.discovery_apps calls'
    = [(101, 501, Helper.Announcer); (102, 502, Helper.Announcer)].
Proof.
  destruct (C10_StartDiscovery_pairs_codes_with_destinations
              0%nat Helper.Announcer [101; 102] [501; 502; 503] Helper.two_ues
              (Helper.mkUeRrc 1 11) [] eq_refl eq_refl) as [Hok _].
  destruct Hok as (w' & calls' & Hrun & Hcalls & Happs & _); [simpl; lia|].
  exists w', calls'. split; [exact Hrun|]. split; [exact Hcalls | exact Happs].
Defined.

(** ** The direct link state machine and the controller *)

Section DirectLinkFacts.

Import DirectLink.

Variable T5080 : Time.

Lemma request_of_set_state (l : DirectLink) (s : LinkState) (p : option Address)
    (t : option Time) (c : Z) :
  request_of (set_state l s p t c) = request_of l.
Proof. done. Qed.



(** An expiry of the timer in AwaitingResponse. *)
Lemma deliver_expiry (s : Sim) (e : Time) :
  role (sim_link s) = Initiating ->
  state (sim_link s) = AwaitingResponse ->
  let s' := deliver T5080 e TimerExpiry s in
  log s' = log s ++ [(e, Request (request_of (sim_link s)))] /\
  role (sim_link s') = Initiating /\
  state (sim_link s') = AwaitingResponse /\
  retransmitTimer (sim_link s') = Some (e + T5080) /\
  retransmitCount (sim_link s') = retransmitCount (sim_link s) + 1 /\
  request_of (sim_link s') = request_of (sim_link s).
Proof.
  intros Hr Hs. unfold deliver, step. rewrite Hr, Hs. simpl. by rewrite Hr.
Qed.

(** [n] periods elapse with no answer: [n] expiries, [n] retransmissions. *)
Lemma advance_awaiting (HT : 0 < T5080) (n : nat) :
  forall (fuel : nat) (s : Sim) (e until : Time),
    (n <= fuel)%nat ->
    role (sim_link s) = Initiating ->
    state (sim_link s) = AwaitingResponse ->
    retransmitTimer (sim_link s) = Some e ->
    e + (Z.of_nat n - 1) * T5080 <= until < e + Z.of_nat n * T5080 ->
    exists s',
      advance T5080 fuel until s = Some s' /\
      log s' = log s ++ retransmissions T5080 (e - T5080)
                          (Request (request_of (sim_link s))) n /\
      clock s' = until /\
      role (sim_link s') = Initiating /\
      state (sim_link s') = AwaitingResponse /\
      retransmitTimer (sim_link s') = Some (e + Z.of_nat n * T5080) /\
      retransmitCount (sim_link s') = retransmitCount (sim_link s) + Z.of_nat n.
Proof using T5080.
  induction n as [|n IH]; intros fuel s e until Hfuel Hr Hs Ht Hu.
  - exists {| clock := until; sim_link := sim_link s; log := log s |}.
    destruct fuel; simpl; rewrite Ht;
      (destruct (Z.leb_spec e until); [lia|]);
      simpl; rewrite app_nil_r, Z.add_0_r; repeat split; auto; lia.
  - destruct fuel as [|fuel]; [lia|]. simpl advance. rewrite Ht.
    destruct (Z.leb_spec e until); [|lia].
    destruct (deliver_expiry s e Hr Hs) as (Hlog & Hr' & Hs' & Ht' & Hc' & Hq').
    destruct (IH fuel (deliver T5080 e TimerExpiry s) (e + T5080) until)
      as (s' & Hadv & Hlog' & Hclk & Hr'' & Hs'' & Ht'' & Hc''); auto; [lia | lia |].
    exists s'. split; [done|]. repeat split; auto.
    + rewrite Hlog', Hlog, Hq', <- app_assoc. simpl.
      by replace (e - T5080 + T5080) with e by lia;
         replace (e + T5080 - T5080) with e by lia.
    + rewrite Ht''. f_equal. lia.
    + rewrite Hc'', Hc'. lia.
Qed.

Lemma advance_no_timer (fuel : nat) (until : Time) (s : Sim) :
  retransmitTimer (sim_link s) = None ->
  advance T5080 fuel until s
  = Some {| clock := until; sim_link := sim_link s; log := log s |}.
Proof. intros Ht. destruct fuel; simpl; by rewrite Ht. Qed.

Lemma retransmissions_length (t0 : Time) (m : Message) (n : nat) :
  length (retransmissions T5080 t0 m n) = n.
Proof. revert t0. induction n as [|n IH]; intros t0; simpl; [done|]. by rewrite IH. Qed.

Lemma retransmissions_payload (t0 : Time) (m : Message) (n : nat) (x : Time * Message) :
  In x (retransmissions T5080 t0 m n) -> snd x = m.
Proof.
  revert t0. induction n as [|n IH]; intros t0; simpl; [done|].
  intros [<-|Hx]; [done|]. by eapply IH.
Qed.

Lemma retransmissions_times (t0 : Time) (m : Message) (n i : nat) :
  (i < n)%nat ->
  nth_error (retransmissions T5080 t0 m n) i
  = Some (t0 + (Z.of_nat i + 1) * T5080, m).
Proof.
  revert t0 i. induction n as [|n IH]; intros t0 [|i] Hi; simpl; try lia.
  - do 2 f_equal. lia.
  - rewrite IH by lia. do 2 f_equal. lia.
Qed.

(** C8.  An initiating link started at [t0] sends its Establishment-Request
    and waits.  While neither Accept nor Reject arrives, the clock advanced
    past [n] periods of T5080 (to [t0 + n * T5080 + r] with [r] short of a
    period) has fired the timer [n] times: the log holds, after the first
    request, exactly [n] retransmissions, the i-th sent at
    [t0 + i * T5080], each with the payload of the first; the link still
    awaits the response.  Once an Accept is taken in, the timer is
    cancelled: however far the clock advances, nothing is sent any more. *)
Theorem C8_one_retransmission_per_elapsed_T5080
    (HT : 0 < T5080) (l : DirectLink) (t0 : Time)
    (Hrole : role l = Initiating) (Hidle : state l = Idle) :
  let request := Request (request_of l) in
  let started := deliver T5080 t0 Start {| clock := t0; sim_link := l; log := [] |} in
  log started = [(t0, request)] /\
  state (sim_link started) = AwaitingResponse /\
  forall (n fuel : nat) (r : Z),
    (n <= fuel)%nat -> 0 <= r < T5080 ->
    exists waiting,
      advance T5080 fuel (t0 + Z.of_nat n * T5080 + r) started = Some waiting /\
      log waiting = (t0, request) :: retransmissions T5080 t0 request n /\
      length (retransmissions T5080 t0 request n) = n /\
      (forall i, (i < n)%nat ->
                 nth_error (retransmissions T5080 t0 request n) i
                 = Some (t0 + (Z.of_nat i + 1) * T5080, request)) /\
      state (sim_link waiting) = AwaitingResponse /\
      retransmitCount (sim_link waiting) = retransmitCount l + Z.of_nat n /\
      forall (ta : Time) (a : Address) (fuel' : nat) (until : Time),
        let accepted := deliver T5080 ta (RecvAccept a) waiting in
        state (sim_link accepted) = Established /\
        retransmitTimer (sim_link accepted) = None /\
        log accepted = log waiting /\
        exists final,
          advance T5080 fuel' until accepted = Some final /\
          log final = log waiting /\
          state (sim_link final) = Established.
Proof using T5080.
  intros request started.
  assert (log started = [(t0, request)] /\
          role (sim_link started) = Initiating /\
          state (sim_link started) = AwaitingResponse /\
          retransmitTimer (sim_link started) = Some (t0 + T5080) /\
          retransmitCount (sim_link started) = retransmitCount l /\
          request_of (sim_link started) = request_of l) as (Hlog & Hr & Hs & Ht & Hc & Hq).
  { subst started request. unfold deliver, step. simpl. rewrite Hrole, Hidle.
    simpl. by rewrite Hrole. }
  split; [done|]. split; [done|].
  intros n fuel r Hfuel Hrng.
  destruct (advance_awaiting HT n fuel started (t0 + T5080)
              (t0 + Z.of_nat n * T5080 + r))
    as (waiting & Hadv & Hlog' & _ & Hr' & Hs' & Ht' & Hc'); auto; [lia|].
  exists waiting. split; [done|].
  rewrite Hq in Hlog'. replace (t0 + T5080 - T5080) with t0 in Hlog' by lia.
  split; [by rewrite Hlog', Hlog|].
  split; [apply retransmissions_length|].
  split; [intros i Hi; by apply retransmissions_times|].
  split; [done|]. split; [by rewrite Hc', Hc|].
  intros ta a fuel' until accepted.
  assert (state (sim_link accepted) = Established /\
          retransmitTimer (sim_link accepted) = None /\
          log accepted = log waiting) as (Hse & Hte & Hle).
  { subst accepted. unfold deliver, step. rewrite Hr', Hs'. simpl.
    by rewrite app_nil_r. }
  repeat split; auto.
  eexists. split; [by apply advance_no_timer|]. simpl. by split.
Qed.




End DirectLinkFacts.

(** The specification's example: T5080 is 8 seconds and the link starts at
    time 0; 20 seconds later two retransmissions were sent, at 8 and at 16. *)
Lemma C8_retransmission_witness :
  exists waiting,
    DirectLink.advance 8 2 20
      (DirectLink.deliver 8 0 DirectLink.Start
         (DirectLink.mkSim 0 DirectLink.example_link []))
    = Some waiting /\
    DirectLink.log waiting
    = [(0, DirectLink.Request (DirectLink.request_of DirectLink.example_link));
       (8, DirectLink.Request (DirectLink.request_of DirectLink.example_link));
       (16, DirectLink.Request (DirectLink.request_of DirectLink.example_link))].
Proof.
  destruct (C8_one_retransmission_per_elapsed_T5080
              8 ltac:(lia) DirectLink.example_link 0 eq_refl eq_refl)
    as (_ & _ & Hn).
  destruct (Hn 2%nat 2%nat 4 ltac:(lia) ltac:(lia)) as (waiting & Hadv & Hlog & _).
  exists waiting. split; [exact Hadv | exact Hlog].
Defined.



Section ControllerFacts.

Import DirectLink ProseController.

(** C7.  After [addDirectLinkConnection] for a peer, whatever it answered, a
    second call for the same peer (with any address, role, service code and
    QoS parameters, at any time) answers AlreadyExists, sends nothing and
    leaves the controller, the first link with it, as it was.  On a
    controller without a link to the peer the first call creates the link:
    awaiting the response with the request sent when initiating, Idle
    otherwise. *)
Theorem C7_second_addDirectLinkConnection_already_exists
    (T5080 now1 now2 : Time) (c : Controller) (peer : EndpointId)
    (addr1 addr2 : Address) (init1 init2 : bool) (code1 code2 : option Z)
    (qos1 qos2 : Z) :
  let first := addDirectLinkConnection T5080 now1 c peer addr1 init1 code1 qos1 in
  let c1 := snd (fst first) in
  addDirectLinkConnection T5080 now2 c1 peer addr2 init2 code2 qos2
  = (AlreadyExists, c1, []) /\
  is_Some (links c1 !! peer) /\
  (forall other, other <> peer -> links c1 !! other = links c !! other) /\
  (links c !! peer = None ->
   fst (fst first) = Created /\
   exists l, links c1 !! peer = Some l /\
             peerId l = peer /\ localAddress l = addr1 /\
             relayServiceCode l = code1 /\
             (if init1
              then role l = Initiating /\ state l = AwaitingResponse /\
                   snd first = [Request (request_of l)]
              else role l = Target /\ state l = Idle /\ snd first = [])).
Proof.
  intros first c1. subst c1 first. unfold addDirectLinkConnection.
  destruct (links c !! peer) as [l0|] eqn:Hl; simpl.
  - rewrite Hl. repeat split; eauto; done.
  - rewrite lookup_insert_eq. repeat split; eauto.
    + intros other Hne. by rewrite lookup_insert_ne.
    + eexists. split; [done|]. destruct init1; simpl; repeat split.
Qed.

End ControllerFacts.

(** On a controller without links: endpoint 2 is added, and added again. *)
Lemma C7_second_call_witness :
  let c := ProseController.mkController 1 true ∅ ∅ in
  let c1 := snd (fst (ProseController.addDirectLinkConnection 8 0 c 2 100 true (Some 5) 0)) in
  ProseController.addDirectLinkConnection 8 3 c1 2 100 true (Some 5) 0
  = (ProseController.AlreadyExists, c1, []).
Proof.
  apply (C7_second_addDirectLinkConnection_already_exists
           8 0 3 (ProseController.mkController 1 true ∅ ∅) 2 100 100 true true
           (Some 5) (Some 5) 0 0).
Defined.

(** ** More on the selection algorithms *)

Lemma Double_gt_not_nan (a b : double) :
  gt a b = true -> is_nan a = false /\ is_nan b = false.
Proof. unfold is_nan. by_float_cases; auto. Qed.

(** The flag [found] has no part in what [relay] becomes. *)
Lemma MaxRsrp_fold_found (l : list RelayInfo) (relay : RelayInfo) (found : bool) :
  fst (MaxRsrp_fold l (relay, found)) = fst (MaxRsrp_fold l (relay, false)).
Proof.
  revert relay found. induction l as [|x l IH]; intros relay found; [done|].
  unfold MaxRsrp_fold. cbn [fold_left]. fold (MaxRsrp_fold l).
  unfold MaxRsrp_body.
  destruct (gt (rsrp x) (rsrp relay) && Bool.eqb (eligible x) true); [done|].
  rewrite IH. symmetry. apply IH.
Qed.

Lemma MaxRsrp_fold_app (l l' : list RelayInfo) (st : RelayInfo * bool) :
  MaxRsrp_fold (l ++ l') st = MaxRsrp_fold l' (MaxRsrp_fold l st).
Proof. unfold MaxRsrp_fold. apply fold_left_app. Qed.

Lemma MaxRsrp_none_above (d : RelayInfo) (l : list RelayInfo) :
  (forall x, In x l -> eligible x = true -> gt (rsrp x) (rsrp d) = false) ->
  SelectRelay_MaxRsrp d l = Ret d.
Proof.
  intros Hall. rewrite SelectRelay_MaxRsrp_fold.
  pose proof (MaxRsrp_inv_fold d l) as Hinv.
  destruct (MaxRsrp_fold l (d, false)) as [relay [|]]; simpl in *.
  - destruct Hinv as [Hgt Hsel]. apply MaxRsrp_selected_in in Hsel as [Hin He].
    rewrite (Hall _ Hin He) in Hgt. done.
  - by destruct Hinv as [-> _].
Qed.

Lemma MaxRsrp_some_above (d : RelayInfo) (l : list RelayInfo) :
  (exists x, In x l /\ eligible x = true /\ gt (rsrp x) (rsrp d) = true) ->
  exists c, SelectRelay_MaxRsrp d l = Ret c /\
            first_strongest_eligible l c /\ gt (rsrp c) (rsrp d) = true.
Proof.
  intros (x & Hx & He & Hgt). rewrite SelectRelay_MaxRsrp_fold.
  pose proof (MaxRsrp_inv_fold d l) as Hinv.
  destruct (MaxRsrp_fold l (d, false)) as [relay [|]]; simpl in *.
  - exists relay. tauto.
  - destruct Hinv as [_ Hall]. rewrite (Hall x Hx He) in Hgt. done.
Qed.

(** X2.  A candidate that is not eligible never bears on the result of the
    maximum RSRP algorithm: the selection over a list is the selection over
    its eligible candidates. *)
Theorem X2_MaxRsrp_ignores_ineligible (d : RelayInfo) (l : list RelayInfo) :
  SelectRelay_MaxRsrp d (List.filter eligible l) = SelectRelay_MaxRsrp d l /\
  MaxRsrp_loop d (List.filter eligible l) = MaxRsrp_loop d l.
Proof.
  rewrite !SelectRelay_MaxRsrp_fold, !MaxRsrp_loop_fold.
  assert (forall st, MaxRsrp_fold (List.filter eligible l) st = MaxRsrp_fold l st) as ->.
  { induction l as [|x l IH]; intros st; [done|]. simpl.
    destruct (eligible x) eqn:He.
    - unfold MaxRsrp_fold. simpl. apply IH.
    - rewrite IH. unfold MaxRsrp_fold at 2. simpl. fold (MaxRsrp_fold l).
      f_equal. destruct st as [relay found]. unfold MaxRsrp_body.
      by rewrite He, andb_false_r. }
  done.
Qed.

(** X3.  Selecting over a list followed by more candidates is selecting over
    the further candidates with the earlier result as the running best: the
    result stays when no further eligible candidate is strictly stronger
    than it, and otherwise moves to a further candidate that is strictly
    stronger. *)
Theorem X3_MaxRsrp_further_candidates (d : RelayInfo) (l l' : list RelayInfo) :
  exists r,
    SelectRelay_MaxRsrp d l = Ret r /\
    SelectRelay_MaxRsrp d (l ++ l') = SelectRelay_MaxRsrp r l' /\
    ((forall x, In x l' -> eligible x = true -> gt (rsrp x) (rsrp r) = false) ->
     SelectRelay_MaxRsrp d (l ++ l') = Ret r) /\
    ((exists x, In x l' /\ eligible x = true /\ gt (rsrp x) (rsrp r) = true) ->
     exists r', SelectRelay_MaxRsrp d (l ++ l') = Ret r' /\
                first_strongest_eligible l' r' /\ gt (rsrp r') (rsrp r) = true).
Proof.
  exists (fst (MaxRsrp_fold l (d, false))).
  split; [apply SelectRelay_MaxRsrp_fold|].
  assert (SelectRelay_MaxRsrp d (l ++ l')
          = SelectRelay_MaxRsrp (fst (MaxRsrp_fold l (d, false))) l') as Hcomp.
  { rewrite !SelectRelay_MaxRsrp_fold, MaxRsrp_fold_app.
    destruct (MaxRsrp_fold l (d, false)) as [r found]. simpl.
    by rewrite MaxRsrp_fold_found. }
  split; [done|]. rewrite Hcomp. split.
  - intros Hno. by apply MaxRsrp_none_above.
  - intros Hex. by apply MaxRsrp_some_above.
Qed.

Lemma MaxRsrp_no_eligible_above_perm (d : RelayInfo) (l l' : list RelayInfo) :
  Permutation l l' ->
  (forall x, In x l -> eligible x = true -> gt (rsrp x) (rsrp d) = false) ->
  forall x, In x l' -> eligible x = true -> gt (rsrp x) (rsrp d) = false.
Proof.
  intros Hp Hall x Hx. apply Hall. eapply Permutation_in; [|exact Hx].
  by symmetry.
Qed.

(** Where a candidate of a list stands with respect to its first strongest
    eligible candidate. *)
Lemma first_strongest_against (l : list RelayInfo) (r x : RelayInfo) :
  first_strongest_eligible l r -> In x l -> eligible x = true ->
  x = r \/ le (rsrp r) (rsrp x) = false \/ gt (rsrp x) (rsrp r) = false.
Proof.
  intros (before & after & -> & _ & Hb & Ha) Hx He.
  apply in_app_or in Hx as [Hx|[<-|Hx]]; auto.
Qed.

(** X4.  When no two different eligible candidates tie, the maximum RSRP
    algorithm does not depend on the order in which the relays were
    discovered: every permutation of the list gives the same result. *)
Theorem X4_MaxRsrp_order_independent (d : RelayInfo) (l l' : list RelayInfo)
    (Hperm : Permutation l l') (Hties : tie_free l) :
  SelectRelay_MaxRsrp d l = SelectRelay_MaxRsrp d l'.
Proof.
  rewrite !SelectRelay_MaxRsrp_fold. f_equal.
  pose proof (MaxRsrp_inv_fold d l) as H1.
  pose proof (MaxRsrp_inv_fold d l') as H2.
  destruct (MaxRsrp_fold l (d, false)) as [r1 [|]],
           (MaxRsrp_fold l' (d, false)) as [r2 [|]]; simpl in *.
  - destruct H1 as [Hg1 Hs1], H2 as [Hg2 Hs2].
    destruct (MaxRsrp_selected_in _ _ Hs1) as [Hin1 He1].
    destruct (MaxRsrp_selected_in _ _ Hs2) as [Hin2 He2].
    assert (In r1 l') as Hin1' by (by eapply Permutation_in).
    assert (In r2 l) as Hin2' by (eapply Permutation_in; [symmetry|]; done).
    destruct (Double_gt_not_nan _ _ Hg1) as [Hn1 _].
    destruct (Double_gt_not_nan _ _ Hg2) as [Hn2 _].
    destruct (first_strongest_against _ _ _ Hs2 Hin1' He1) as [->|[Ha|Ha]]; [done| |];
      destruct (first_strongest_against _ _ _ Hs1 Hin2' He2) as [->|[Hb|Hb]]; try done.
    + apply Double_le_false_iff_gt in Ha, Hb; try done.
      pose proof (Double_gt_trans _ _ _ Ha Hb) as Hc.
      by rewrite Double_gt_irrefl in Hc.
    + apply Double_le_false_iff_gt in Ha; try done. congruence.
    + apply Double_le_false_iff_gt in Hb; try done. congruence.
    + by apply Hties.
  - destruct H1 as [Hg1 Hs1], H2 as [-> Hall].
    destruct (MaxRsrp_selected_in _ _ Hs1) as [Hin1 He1].
    rewrite (Hall r1) in Hg1; [done| by eapply Permutation_in |done].
  - destruct H1 as [-> Hall], H2 as [Hg2 Hs2].
    destruct (MaxRsrp_selected_in _ _ Hs2) as [Hin2 He2].
    rewrite (MaxRsrp_no_eligible_above_perm d l l' Hperm Hall r2) in Hg2; done.
  - destruct H1 as [-> _], H2 as [-> _]. done.
Qed.

(** X5.  Whatever the random stream yields, the random algorithm either
    returns a candidate of the list or throws std::out_of_range, and it
    throws exactly when the drawn index is outside the vector; it draws
    once. *)
Theorem X5_Random_never_reads_outside `{UniformRandomVariable}
    (d : RelayInfo) (m_rand : RngStream) (x : RelayInfo) (l : list RelayInfo) :
  let draw := GetInteger m_rand 0 (to_uint32 (vector_size (x :: l) - 1)) in
  let result := SelectRelay_Random d m_rand (x :: l) in
  snd result = snd draw /\
  ((exists c, fst result = Ret c /\ In c (x :: l) /\
              nth_error (x :: l) (Z.to_nat (fst draw)) = Some c /\
              0 <= fst draw < vector_size (x :: l)) \/
   (fst result = OutOfRange /\
    ~ 0 <= fst draw < vector_size (x :: l))).
Proof.
  intros draw result. subst result. unfold SelectRelay_Random.
  cbn [vector_empty negb]. fold draw. destruct draw as [i s']. simpl.
  split; [done|]. unfold vector_at.
  destruct (Z.leb_spec 0 i), (Z.ltb_spec i (vector_size (x :: l))); simpl;
    try (right; split; [done|lia]).
  destruct (nth_error (x :: l) (Z.to_nat i)) as [c|] eqn:Hc.
  - left. exists c. split; [done|]. split; [exact (nth_error_In _ _ Hc)|].
    split; [done|lia].
  - apply nth_error_None in Hc. unfold vector_size in *. lia.
Qed.

(** The example list has no ties, and reversed it yields the same relay. *)
Lemma X4_MaxRsrp_order_witness :
  SelectRelay_MaxRsrp RelayInfo_minus_infinity example_candidates
  = SelectRelay_MaxRsrp RelayInfo_minus_infinity (rev example_candidates).
Proof.
  apply (X4_MaxRsrp_order_independent RelayInfo_minus_infinity
           example_candidates (rev example_candidates)).
  - apply Permutation_rev.
  - intros a b Ha Hb Hea Heb _ _.
    destruct Ha as [<-|[<-|[<-|[]]]]; destruct Hb as [<-|[<-|[<-|[]]]];
      try reflexivity; try discriminate Hea; try discriminate Heb;
      intros H1 H2; try discriminate H1; discriminate H2.
Defined.

(** ** More on the helper *)

Section HelperMoreFacts.

Import Helper DirectLinkSetup.

(** The ProSe layers after both were told the IMSI and the L2 ID of their
    own RRC. *)
Lemma EstablishRealDirectLink_layers (w : World) (initUe trgtUe : NetDevice)
    (r1 r2 : UeRrc) (c1 c2 : list ProseCall)
    (Hc1 : prose w !! initUe = Some c1) (Hc2 : prose w !! trgtUe = Some c2)
    (Hne : initUe <> trgtUe) {A} (k : M A) :
  (call_prose initUe (SetImsi (imsi r1)) ;;;
   call_prose trgtUe (SetImsi (imsi r2)) ;;;
   call_prose initUe (SetL2Id (sourceL2Id r1)) ;;;
   call_prose trgtUe (SetL2Id (sourceL2Id r2)) ;;;
   k) w
  = k {| rrc := rrc w;
         prose := <[trgtUe := c2 ++ [SetImsi (imsi r2); SetL2Id (sourceL2Id r2)]]>
                    (<[initUe := c1 ++ [SetImsi (imsi r1); SetL2Id (sourceL2Id r1)]]>
                       (prose w));
         events := events w |}.
Proof.
  unfold bind.
  rewrite (call_prose_prepared _ _ _ _ Hc1). cbn [rrc prose events].
  erewrite call_prose_prepared
    by (cbn [prose]; rewrite lookup_insert_ne by done; exact Hc2).
  cbn [rrc prose events].
  erewrite call_prose_prepared
    by (cbn [prose]; rewrite lookup_insert_ne by done; apply lookup_insert_eq).
  cbn [rrc prose events].
  erewrite call_prose_prepared
    by (cbn [prose]; rewrite lookup_insert_ne by done; apply lookup_insert_eq).
  cbn [rrc prose events]. f_equal. f_equal.
  apply map_eq. intros x.
  destruct (decide (x = trgtUe)) as [Hk2|Hk2];
    destruct (decide (x = initUe)) as [Hk1|Hk1];
    simplify_map_eq; by rewrite <- ?app_assoc.
Qed.

Lemma assign_bound (ref : Ref) (f : SidelinkInfo -> SidelinkInfo) (objs : Objects)
    (s : SidelinkInfo) (w : World) :
  objs !! ref = Some s -> assign ref f objs w = (Ret (<[ref := f s]> objs), w).
Proof. intros Hs. unfold assign. by rewrite Hs. Qed.

Lemma copy_bound (ref : Ref) (objs : Objects) (s : SidelinkInfo) (w : World) :
  objs !! ref = Some s -> copy ref objs w = (Ret s, w).
Proof. intros Hs. unfold copy. by rewrite Hs. Qed.

(** X6.  On two different prepared UE devices [EstablishRealDirectLink]
    returns: each ProSe layer was told the IMSI and then the L2 ID of its own
    RRC, nothing else of the layers changed, and two AddDirectLinkConnection
    calls were scheduled last at [time], the initiating UE first, with relay
    service code 0.  When the two [SidelinkInfo] references are bound to
    different objects, the two calls are the two ends of one link: each
    object goes from its UE to the peer and keeps its traffic profile, and
    the call is what it is on two separate values.  When both references
    are bound to one object, all four assignments land in it before the
    first call is scheduled: both calls carry the sidelink information of
    the target end (from the target to the initiating UE), and they are the
    two ends of one link only if the two L2 IDs are equal. *)
Theorem X6_EstablishRealDirectLink_two_ends
    (w : World) (time : Time)
    (initUe : NetDevice) (initUeIp : Ipv4Address) (initSlInfo : Ref)
    (trgtUe : NetDevice) (trgtUeIp : Ipv4Address) (trgtSlInfo : Ref)
    (objs : Objects) (r1 r2 : UeRrc) (c1 c2 : list ProseCall)
    (si st : SidelinkInfo)
    (Hr1 : rrc w !! initUe = Some r1) (Hr2 : rrc w !! trgtUe = Some r2)
    (Hc1 : prose w !! initUe = Some c1) (Hc2 : prose w !! trgtUe = Some c2)
    (Hne : initUe <> trgtUe)
    (Hsi : objs !! initSlInfo = Some si) (Hst : objs !! trgtSlInfo = Some st) :
  let e1 info := {| target := initUe; selfL2Id := sourceL2Id r1; selfIp := initUeIp;
                    peerL2Id := sourceL2Id r2; isInitiating := true;
                    relayServiceCode := 0; slInfo := info |} in
  let e2 info := {| target := trgtUe; selfL2Id := sourceL2Id r2; selfIp := trgtUeIp;
                    peerL2Id := sourceL2Id r1; isInitiating := false;
                    relayServiceCode := 0; slInfo := info |} in
  let after info1 info2 :=
    {| rrc := rrc w;
       prose := <[trgtUe := c2 ++ [SetImsi (imsi r2); SetL2Id (sourceL2Id r2)]]>
                  (<[initUe := c1 ++ [SetImsi (imsi r1); SetL2Id (sourceL2Id r1)]]>
                     (prose w));
       events := events w ++ [(time, e1 info1); (time, e2 info2)] |} in
  (initSlInfo <> trgtSlInfo ->
   let initSlInfo' := {| m_dstL2Id := sourceL2Id r2; m_srcL2Id := sourceL2Id r1;
                         m_profile := m_profile si |} in
   let trgtSlInfo' := {| m_dstL2Id := sourceL2Id r1; m_srcL2Id := sourceL2Id r2;
                         m_profile := m_profile st |} in
   ByReference.EstablishRealDirectLink
     time initUe initUeIp initSlInfo trgtUe trgtUeIp trgtSlInfo objs w
   = (Ret (<[trgtSlInfo := trgtSlInfo']> (<[initSlInfo := initSlInfo']> objs)),
      after initSlInfo' trgtSlInfo') /\
   two_ends (e1 initSlInfo') (e2 trgtSlInfo') /\
   EstablishRealDirectLink time initUe initUeIp si trgtUe trgtUeIp st w
   = (Ret (initSlInfo', trgtSlInfo'), after initSlInfo' trgtSlInfo')) /\
  (initSlInfo = trgtSlInfo ->
   let both := {| m_dstL2Id := sourceL2Id r1; m_srcL2Id := sourceL2Id r2;
                  m_profile := m_profile si |} in
   ByReference.EstablishRealDirectLink
     time initUe initUeIp initSlInfo trgtUe trgtUeIp trgtSlInfo objs w
   = (Ret (<[initSlInfo := both]> objs), after both both) /\
   (two_ends (e1 both) (e2 both) <-> sourceL2Id r1 = sourceL2Id r2)).
Proof.
  intros e1 e2 after. unfold Objects in *. split.
  - intros Href. split; [|split; [by repeat split|]].
    + unfold ByReference.EstablishRealDirectLink.
      unfold bind at 1 2. unfold GetRrc. rewrite Hr1, Hr2.
      rewrite (EstablishRealDirectLink_layers w initUe trgtUe r1 r2 c1 c2 Hc1 Hc2 Hne).
      unfold bind.
      rewrite (assign_bound _ _ _ _ _ Hsi).
      erewrite assign_bound by apply lookup_insert_eq.
      erewrite assign_bound
        by (unfold Objects, Ref in *; rewrite !lookup_insert_ne by done; exact Hst).
      erewrite assign_bound by apply lookup_insert_eq.
      erewrite copy_bound
        by (unfold Objects, Ref in *; rewrite !lookup_insert_ne by done;
            apply lookup_insert_eq).
      unfold Schedule at 1. cbn [rrc prose events].
      erewrite copy_bound by apply lookup_insert_eq.
      unfold Schedule, ret. cbn [rrc prose events].
      unfold Objects, Ref in *. rewrite !insert_insert_eq. unfold after, e1, e2.
      unfold set_m_srcL2Id, set_m_dstL2Id. simpl.
      by rewrite <- app_assoc.
    + unfold EstablishRealDirectLink.
      unfold bind at 1 2. unfold GetRrc. rewrite Hr1, Hr2.
      rewrite (EstablishRealDirectLink_layers w initUe trgtUe r1 r2 c1 c2 Hc1 Hc2 Hne).
      unfold bind, Schedule, ret. cbn [rrc prose events].
      unfold after, e1, e2. by rewrite <- app_assoc.
  - intros <-. rewrite Hsi in Hst. injection Hst as <-. split.
    + unfold ByReference.EstablishRealDirectLink.
      unfold bind at 1 2. unfold GetRrc. rewrite Hr1, Hr2.
      rewrite (EstablishRealDirectLink_layers w initUe trgtUe r1 r2 c1 c2 Hc1 Hc2 Hne).
      unfold bind.
      rewrite (assign_bound _ _ _ _ _ Hsi).
      do 3 (erewrite assign_bound by apply lookup_insert_eq).
      erewrite copy_bound by apply lookup_insert_eq.
      unfold Schedule at 1. cbn [rrc prose events].
      erewrite copy_bound by apply lookup_insert_eq.
      unfold Schedule, ret. cbn [rrc prose events].
      unfold Objects, Ref in *. rewrite !insert_insert_eq. unfold after, e1, e2.
      unfold set_m_srcL2Id, set_m_dstL2Id. simpl.
      by rewrite <- app_assoc.
    + unfold two_ends, e1, e2. simpl. split; [|intros ->; by repeat split].
      intros (_ & _ & _ & _ & _ & Hsrc & _). done.
Qed.

Lemma call_prose_frame (dev : NetDevice) (c : ProseCall) (w w' : World)
    (o : outcome unit) :
  call_prose dev c w = (o, w') -> events w' = events w /\ rrc w' = rrc w.
Proof.
  unfold call_prose. destruct (prose w !! dev); intros [= <- <-]; done.
Qed.

(** X7.  A relay connection is a direct link with a service code: in every
    world, [EstablishL3UeToNetworkRelayConnection] with a service code above
    zero ends as [EstablishRealDirectLink] does, with the same ProSe layers
    and the same scheduled calls but for the relay service code, which is
    0 in the calls of the direct link. *)
Theorem X7_relay_connection_is_direct_link_with_code
    (w : World) (t : Time)
    (remoteUe : NetDevice) (remoteUeIp : Ipv4Address) (remoteUeSlInfo : SidelinkInfo)
    (relayUe : NetDevice) (relayUeIp : Ipv4Address) (relayUeSlInfo : SidelinkInfo)
    (code : Z) (Hcode : 0 < code) :
  let relay := EstablishL3UeToNetworkRelayConnection
                 t remoteUe remoteUeIp remoteUeSlInfo
                 relayUe relayUeIp relayUeSlInfo code w in
  let direct := EstablishRealDirectLink
                  t remoteUe remoteUeIp remoteUeSlInfo
                  relayUe relayUeIp relayUeSlInfo w in
  fst relay = fst direct /\
  rrc (snd relay) = rrc (snd direct) /\
  prose (snd relay) = prose (snd direct) /\
  exists new,
    events (snd direct) = events w ++ new /\
    events (snd relay) = events w ++ map (with_code code) new /\
    Forall (fun e => relayServiceCode (snd e) = 0) new.
Proof.
  intros relay direct. subst relay direct.
  unfold EstablishL3UeToNetworkRelayConnection, EstablishRealDirectLink.
  destruct (Z.leb_spec code 0) as [|_]; [lia|].
  assert (forall (o : outcome (SidelinkInfo * SidelinkInfo)) (w' : World),
             events w' = events w ->
             (o, w').1 = (o, w').1 /\ rrc (o, w').2 = rrc (o, w').2 /\
             prose (o, w').2 = prose (o, w').2 /\
             exists new, events (o, w').2 = events w ++ new /\
                         events (o, w').2 = events w ++ map (with_code code) new /\
                         Forall (fun e => relayServiceCode e.2 = 0) new) as Hstop.
  { intros o w' Hev. repeat split. exists []. simpl. by rewrite app_nil_r. }
  unfold bind, GetRrc.
  destruct (rrc w !! remoteUe) as [r1|]; [|by apply Hstop].
  destruct (rrc w !! relayUe) as [r2|]; [|by apply Hstop].
  destruct (call_prose remoteUe (SetImsi (imsi r1)) w) as [o1 w1] eqn:E1.
  apply call_prose_frame in E1 as [Hev1 _].
  destruct o1 as [[]| | | |]; try by apply Hstop.
  destruct (call_prose relayUe (SetImsi (imsi r2)) w1) as [o2 w2] eqn:E2.
  apply call_prose_frame in E2 as [Hev2 _].
  destruct o2 as [[]| | | |]; try (apply Hstop; congruence).
  destruct (call_prose remoteUe (SetL2Id (sourceL2Id r1)) w2) as [o3 w3] eqn:E3.
  apply call_prose_frame in E3 as [Hev3 _].
  destruct o3 as [[]| | | |]; try (apply Hstop; congruence).
  destruct (call_prose relayUe (SetL2Id (sourceL2Id r2)) w3) as [o4 w4] eqn:E4.
  apply call_prose_frame in E4 as [Hev4 _].
  destruct o4 as [[]| | | |]; try (apply Hstop; congruence).
  unfold Schedule, ret. cbn [fst snd rrc prose events].
  repeat split. eexists [_; _].
  rewrite Hev4, Hev3, Hev2, Hev1, <- !app_assoc.
  split; [reflexivity|]. split; [reflexivity|]. by repeat constructor.
Qed.

Lemma StartDiscovery_loop_app (dev : NetDevice) (role : DiscoveryRole)
    (a1 a2 d1 d2 : list Z) (w : World) :
  length a1 = length d1 ->
  StartDiscovery_loop dev (a1 ++ a2) (d1 ++ d2) role w
  = (StartDiscovery_loop dev a1 d1 role ;;; StartDiscovery_loop dev a2 d2 role) w.
Proof.
  revert d1 w. induction a1 as [|a a1 IH]; intros [|d d1] w Hlen; try done.
  simpl in Hlen. cbn [app StartDiscovery_loop]. unfold bind.
  destruct (StartDiscoveryApp dev a d role w) as [[[]| | | |] w']; try done.
  rewrite IH by lia. done.
Qed.

(** X8.  [StartDiscovery] works through its lists from the front: on lists
    split where the application codes and the destinations run out together,
    it is one call on the first parts followed by one on the second, and
    destinations beyond the number of application codes are never looked
    at. *)
Theorem X8_StartDiscovery_composes
    (dev : NetDevice) (role : DiscoveryRole) (a1 a2 d1 d2 : list Z) (w : World)
    (Hlen : length a1 = length d1) :
  StartDiscovery dev (a1 ++ a2) (d1 ++ d2) role w
  = (StartDiscovery dev a1 d1 role ;;; StartDiscovery dev a2 d2 role) w /\
  StartDiscovery dev a1 (d1 ++ d2) role w = StartDiscovery dev a1 d1 role w.
Proof.
  unfold StartDiscovery. split; [by apply StartDiscovery_loop_app|].
  rewrite <- (app_nil_r a1) at 1. rewrite StartDiscovery_loop_app by done.
  unfold bind. destruct (StartDiscovery_loop dev a1 d1 role w) as [[[]| | | |] w']; done.
Qed.

(** X9.  With fewer destinations than application codes on a prepared
    device, [StartDiscovery] has already started one application for each
    destination, the i-th code with the i-th destination, when it runs into
    the undefined behaviour; nothing else of the world changed. *)
Theorem X9_StartDiscovery_starts_prefix_before_undefined
    (ueDevice : NetDevice) (role : DiscoveryRole)
    (appCodes dstL2Ids : list Z) (w : World) (r : UeRrc) (calls : list ProseCall)
    (Hrrc : rrc w !! ueDevice = Some r)
    (Hprose : prose w !! ueDevice = Some calls)
    (Hshort : (length dstL2Ids < length appCodes)%nat) :
  exists w' calls',
    StartDiscovery ueDevice appCodes dstL2Ids role w = (Undefined, w') /\
    prose w' !! ueDevice = Some calls' /\
    discovery_apps calls'
    = discovery_apps calls
      ++ map (fun p => (fst p, snd p, role)) (combine appCodes dstL2Ids) /\
    length (combine appCodes dstL2Ids) = length dstL2Ids /\
    rrc w' = rrc w /\ events w' = events w /\
    (forall dev, dev <> ueDevice -> prose w' !! dev = prose w !! dev).
Proof.
  unfold StartDiscovery.
  revert dstL2Ids w calls Hrrc Hprose Hshort.
  induction appCodes as [|a appCodes IH]; intros dstL2Ids w calls Hrrc Hprose Hshort.
  - simpl in Hshort. lia.
  - destruct dstL2Ids as [|dl dstL2Ids].
    + exists w, calls. simpl. rewrite app_nil_r. by repeat split.
    + simpl in Hshort. cbn [StartDiscovery_loop]. unfold bind.
      rewrite (StartDiscoveryApp_prepared _ _ _ _ _ _ _ Hrrc Hprose).
      edestruct (IH dstL2Ids) as (w' & calls' & -> & Hc & Happs & Hl & Hr' & He' & Ho);
        [exact Hrrc | simpl; apply lookup_insert_eq | lia |].
      exists w', calls'. repeat split; try done.
      * rewrite Happs, !discovery_apps_app. simpl. by rewrite <- app_assoc.
      * simpl. by rewrite Hl.
      * intros dev Hne. rewrite (Ho dev Hne). simpl. by rewrite lookup_insert_ne.
Qed.

End HelperMoreFacts.

(** The two UEs of the example, linked at time 5 with two objects, and with
    one object for both references. *)
Lemma X6_EstablishRealDirectLink_witness :
  fst (DirectLinkSetup.ByReference.EstablishRealDirectLink
         5 0%nat 100 0%nat 1%nat 200 1%nat DirectLinkSetup.two_infos Helper.two_ues)
  = Ret (<[1%nat := Helper.mkSidelinkInfo 11 12 7]>
           (<[0%nat := Helper.mkSidelinkInfo 12 11 9]> DirectLinkSetup.two_infos)) /\
  fst (DirectLinkSetup.ByReference.EstablishRealDirectLink
         5 0%nat 100 0%nat 1%nat 200 0%nat DirectLinkSetup.two_infos Helper.two_ues)
  = Ret (<[0%nat := Helper.mkSidelinkInfo 11 12 9]> DirectLinkSetup.two_infos).
Proof.
  split.
  - destruct (X6_EstablishRealDirectLink_two_ends
                Helper.two_ues 5 0%nat 100 0%nat 1%nat 200 1%nat
                DirectLinkSetup.two_infos
                (Helper.mkUeRrc 1 11) (Helper.mkUeRrc 2 12) [] []
                (Helper.mkSidelinkInfo 0 0 9) (Helper.mkSidelinkInfo 0 0 7)
                eq_refl eq_refl eq_refl eq_refl ltac:(discriminate)
                eq_refl eq_refl) as [Hsep _].
    destruct Hsep as [Hrun _]; [discriminate|]. rewrite Hrun. reflexivity.
  - destruct (X6_EstablishRealDirectLink_two_ends
                Helper.two_ues 5 0%nat 100 0%nat 1%nat 200 0%nat
                DirectLinkSetup.two_infos
                (Helper.mkUeRrc 1 11) (Helper.mkUeRrc 2 12) [] []
                (Helper.mkSidelinkInfo 0 0 9) (Helper.mkSidelinkInfo 0 0 9)
                eq_refl eq_refl eq_refl eq_refl ltac:(discriminate)
                eq_refl eq_refl) as [_ Hsame].
    destruct Hsame as [Hrun _]; [reflexivity|]. rewrite Hrun. reflexivity.
Defined.

(** Service code 7 between the two UEs of the example. *)
Lemma X7_relay_connection_witness :
  fst (Helper.EstablishL3UeToNetworkRelayConnection
         5 0%nat 100 (Helper.mkSidelinkInfo 0 0 9) 1%nat 200 (Helper.mkSidelinkInfo 0 0 9) 7
         Helper.two_ues)
  = fst (DirectLinkSetup.EstablishRealDirectLink
           5 0%nat 100 (Helper.mkSidelinkInfo 0 0 9) 1%nat 200 (Helper.mkSidelinkInfo 0 0 9)
           Helper.two_ues).
Proof.
  apply (X7_relay_connection_is_direct_link_with_code
           Helper.two_ues 5 0%nat 100 (Helper.mkSidelinkInfo 0 0 9)
           1%nat 200 (Helper.mkSidelinkInfo 0 0 9) 7).
  lia.
Defined.

(** Two codes, then one more. *)
Lemma X8_StartDiscovery_witness :
  Helper.StartDiscovery 0%nat ([101; 102] ++ [103]) ([501; 502] ++ [503])
    Helper.Announcer Helper.two_ues
  = Helper.bind (Helper.StartDiscovery 0%nat [101; 102] [501; 502] Helper.Announcer)
      (fun _ => Helper.StartDiscovery 0%nat [103] [503] Helper.Announcer)
      Helper.two_ues.
Proof.
  apply (X8_StartDiscovery_composes 0%nat Helper.Announcer
           [101; 102] [103] [501; 502] [503] Helper.two_ues).
  reflexivity.
Defined.

(** Three codes and one destination: code 101 is started towards 501. *)
Lemma X9_StartDiscovery_witness :
  exists w' calls',
    Helper.StartDiscovery 0%nat [101; 102; 103] [501] Helper.Monitor Helper.two_ues
    = (Undefined, w') /\
    Helper.prose w' !! 0%nat = Some calls' /\
    Helper.discovery_apps calls' = [(101, 501, Helper.Monitor)].
Proof.
  destruct (X9_StartDiscovery_starts_prefix_before_undefined
              0%nat Helper.Monitor [101; 102; 103] [501] Helper.two_ues
              (Helper.mkUeRrc 1 11) [] eq_refl eq_refl ltac:(simpl; lia))
    as (w' & calls' & Hrun & Hcalls & Happs & _).
  exists w', calls'. split; [exact Hrun|]. split; [exact Hcalls | exact Happs].
Defined.

(** ** Relay traces *)

Section RelayTraceFacts.

Import RelayTrace.

Lemma discovery_records_eq (fired : list (Z * Fired)) :
  discovery_records fired = records Discovery fired.
Proof.
  unfold discovery_records, records.
  induction fired as [|[now []] fired IH]; simpl; by rewrite ?IH.
Qed.

Lemma selection_records_eq (fired : list (Z * Fired)) :
  selection_records fired = records Selection fired.
Proof.
  unfold selection_records, records.
  induction fired as [|[now []] fired IH]; simpl; by rewrite ?IH.
Qed.

Lemma rsrp_records_eq (fired : list (Z * Fired)) :
  rsrp_records fired = records Rsrp fired.
Proof.
  unfold rsrp_records, records.
  induction fired as [|[now []] fired IH]; simpl; by rewrite ?IH.
Qed.

(** One firing, seen from the trace [k]: the names and the files that can be
    opened stay; the trace that fired, when its file can be opened, clears
    its flag and writes the heading (first write, on an emptied file) and
    the record; everything else stays. *)
Lemma callback_step (now : Z) (f : Fired) (this : NrSlRelayTrace)
    (fs : FileSystem) (k : Kind) :
  (forall k', k' <> k -> file_name k' this <> file_name k this) ->
  let this' := fst (callback now f this fs) in
  let fs' := snd (callback now f this fs) in
  (forall k', file_name k' this' = file_name k' this) /\
  can_open fs' = can_open fs /\
  (forall name, (forall k', name <> file_name k' this) ->
                files fs' !! name = files fs !! name) /\
  first_write k this'
  = (if kind_eqb (kind_of f) k && can_open fs (file_name k this)
     then false else first_write k this) /\
  files fs' !! file_name k this
  = (if kind_eqb (kind_of f) k && can_open fs (file_name k this)
     then Some (if first_write k this
                then [heading k; record_of now f]
                else content fs (file_name k this) ++ [record_of now f])
     else files fs !! file_name k this).
Proof.
  intros Hdistinct this' fs'. subst this' fs'.
  destruct f, k;
    try (pose proof (Hdistinct Discovery ltac:(done)) as Hd);
    try (pose proof (Hdistinct Selection ltac:(done)) as Hs);
    try (pose proof (Hdistinct Rsrp ltac:(done)) as Hr);
    destruct this as [dn [|] sn [|] rn [|]];
    cbn [callback RelayDiscoveryTrace RelaySelectionTrace RelayRsrpTrace
         kind_of kind_eqb first_write file_name heading record_of andb Bool.eqb
         m_nrSlRelayDiscoveryFilename m_relayDiscoveryFirstWrite
         m_nrSlRelaySelectionFilename m_relaySelectionFirstWrite
         m_nrSlRelayRsrpFilename m_relayRsrpFirstWrite] in *;
    unfold open_truncate, open_append, put_line, content;
    cbn [files can_open];
    repeat match goal with
           | |- context [can_open fs ?n] => destruct (can_open fs n) eqn:?
           end;
    cbn [fst snd files can_open file_name first_write
         m_nrSlRelayDiscoveryFilename m_relayDiscoveryFirstWrite
         m_nrSlRelaySelectionFilename m_relaySelectionFirstWrite
         m_nrSlRelayRsrpFilename m_relayRsrpFirstWrite];
    (split; [by intros []|]); (split; [done|]);
    (split; [intros name Hname;
             pose proof (Hname Discovery); pose proof (Hname Selection);
             pose proof (Hname Rsrp); simpl in *;
             by rewrite ?lookup_insert_ne by done|]);
    (split; [done|]);
    rewrite ?insert_insert_eq, ?lookup_insert_eq;
    rewrite ?lookup_insert_ne by done; done.
Qed.


Lemma records_cons (k : Kind) (now : Z) (f : Fired) (fired : list (Z * Fired)) :
  records k ((now, f) :: fired)
  = (if kind_eqb (kind_of f) k then [record_of now f] else []) ++ records k fired.
Proof. done. Qed.

(** A run, seen from the trace [k] whose file name is no other trace's. *)
Lemma run_trace (fired : list (Z * Fired)) :
  forall (this : NrSlRelayTrace) (fs : FileSystem) (k : Kind),
    (forall k', k' <> k -> file_name k' this <> file_name k this) ->
    let this' := fst (run fired this fs) in
    let fs' := snd (run fired this fs) in
    (forall k', file_name k' this' = file_name k' this) /\
    can_open fs' = can_open fs /\
    (forall name, (forall k', name <> file_name k' this) ->
                  files fs' !! name = files fs !! name) /\
    (if can_open fs (file_name k this)
     then first_write k this'
          = match records k fired with [] => first_write k this | _ :: _ => false end /\
          files fs' !! file_name k this
          = after_records (first_write k this) (files fs !! file_name k this)
                          (heading k) (records k fired)
     else first_write k this' = first_write k this /\
          files fs' !! file_name k this = files fs !! file_name k this).
Proof.
  induction fired as [|[now f] fired IH]; intros this fs k Hdistinct.
  - simpl. repeat split. by destruct (can_open fs (file_name k this)).
  - cbn [run]. destruct (callback now f this fs) as [this1 fs1] eqn:Hstep.
    destruct (callback_step now f this fs k Hdistinct)
      as (Hnames & Hcan & Hother & Hflag & Hfile).
    rewrite Hstep in Hnames, Hcan, Hother, Hflag, Hfile. cbn [fst snd] in *.
    destruct (IH this1 fs1 k) as (Hnames' & Hcan' & Hother' & Hk).
    { intros k' Hk'. rewrite !Hnames. by apply Hdistinct. }
    split; [intros k'; by rewrite Hnames', Hnames|].
    split; [by rewrite Hcan', Hcan|].
    split.
    { intros name Hname. rewrite Hother'; [by apply Hother|].
      intros k'. rewrite Hnames. apply Hname. }
    rewrite Hnames, Hcan in Hk. rewrite records_cons.
    destruct (can_open fs (file_name k this)) eqn:Hopen.
    + destruct Hk as [Hf' Hc']. rewrite Hf', Hc', Hflag, Hfile.
      destruct (kind_eqb (kind_of f) k); cbn [andb app]; [|done].
      unfold after_records, content.
      destruct (first_write k this), (records k fired); simpl;
        by rewrite <- ?app_assoc.
    + destruct Hk as [Hf' Hc']. rewrite andb_false_r in Hflag, Hfile.
      by rewrite Hf', Hc', Hflag, Hfile.
Qed.

Lemma traced_after_records (before : option (list Line)) (head : Line)
    (asked : list Line) :
  traced before head asked = after_records true before head asked.
Proof. by destruct asked. Qed.

(** X10.  A trace object writing to three different files, over any run of
    firings of the three trace sources: a file that can be opened ends up
    with its heading followed by the records asked for it, in the order
    they were asked, whatever it held before, or as it was when nothing was
    asked for it; a file that cannot be opened is left as it was; no other
    file is touched. *)
Theorem X10_trace_files_after_a_run
    (discovery selection rsrp : string) (fs : FileSystem)
    (fired : list (Z * Fired))
    (Hds : discovery <> selection) (Hdr : discovery <> rsrp)
    (Hsr : selection <> rsrp) :
  let fs' := snd (run fired (new_trace discovery selection rsrp) fs) in
  files fs' !! discovery
  = (if can_open fs discovery
     then traced (files fs !! discovery) discovery_heading (discovery_records fired)
     else files fs !! discovery) /\
  files fs' !! selection
  = (if can_open fs selection
     then traced (files fs !! selection) selection_heading (selection_records fired)
     else files fs !! selection) /\
  files fs' !! rsrp
  = (if can_open fs rsrp
     then traced (files fs !! rsrp) rsrp_heading (rsrp_records fired)
     else files fs !! rsrp) /\
  (forall name, name <> discovery -> name <> selection -> name <> rsrp ->
                files fs' !! name = files fs !! name).
Proof.
  intros fs'. subst fs'.
  rewrite discovery_records_eq, selection_records_eq, rsrp_records_eq,
    !traced_after_records.
  assert (forall k k', k' <> k ->
            file_name k' (new_trace discovery selection rsrp)
            <> file_name k (new_trace discovery selection rsrp)) as Hdistinct.
  { intros [] [] Hk; simpl; congruence. }
  pose proof (run_trace fired (new_trace discovery selection rsrp) fs Discovery
                (Hdistinct Discovery)) as (_ & _ & Hother & HD).
  pose proof (run_trace fired (new_trace discovery selection rsrp) fs Selection
                (Hdistinct Selection)) as (_ & _ & _ & HS).
  pose proof (run_trace fired (new_trace discovery selection rsrp) fs Rsrp
                (Hdistinct Rsrp)) as (_ & _ & _ & HR).
  cbn [file_name first_write new_trace heading
       m_nrSlRelayDiscoveryFilename m_relayDiscoveryFirstWrite
       m_nrSlRelaySelectionFilename m_relaySelectionFirstWrite
       m_nrSlRelayRsrpFilename m_relayRsrpFirstWrite] in *.
  split; [by destruct (can_open fs discovery); destruct HD|].
  split; [by destruct (can_open fs selection); destruct HS|].
  split; [by destruct (can_open fs rsrp); destruct HR|].
  intros name H1 H2 H3. apply Hother. by intros [].
Qed.

(** X11.  What is traced while the file cannot be opened is dropped for
    good, and the first write that does open the file starts it afresh: after
    a run during which the file of a trace could not be opened and a second
    run during which it can, the file holds the heading and the records of
    the second run only (or what it held, when the second run asked for
    none). *)
Theorem X11_trace_records_lost_while_unopenable
    (discovery selection rsrp : string) (fs : FileSystem)
    (can : string -> bool) (k : Kind) (fired1 fired2 : list (Z * Fired))
    (Hds : discovery <> selection) (Hdr : discovery <> rsrp)
    (Hsr : selection <> rsrp) :
  let this := new_trace discovery selection rsrp in
  let name := file_name k this in
  let first := run fired1 this fs in
  let second := run fired2 (fst first) (with_can_open (snd first) can) in
  can_open fs name = false ->
  can name = true ->
  first_write k (fst first) = true /\
  files (snd first) !! name = files fs !! name /\
  files (snd second) !! name
  = traced (files fs !! name) (heading k) (records k fired2).
Proof.
  cbv zeta. set (this := new_trace discovery selection rsrp). intros Hno Hyes.
  assert (forall k k', k' <> k -> file_name k' this <> file_name k this) as Hdistinct.
  { intros [] [] Hk; simpl; congruence. }
  pose proof (run_trace fired1 this fs k (Hdistinct k)) as (Hnames & _ & _ & Hk).
  cbv zeta in Hnames, Hk. rewrite Hno in Hk. destruct Hk as [Hflag Hfile].
  assert (first_write k this = true) as Hfresh by (by destruct k).
  rewrite Hfresh in Hflag.
  split; [done|]. split; [done|].
  pose proof (run_trace fired2 (fst (run fired1 this fs))
                (with_can_open (snd (run fired1 this fs)) can) k) as Hrun.
  destruct Hrun as (_ & _ & _ & Hk).
  { intros k' Hk'. rewrite !Hnames. by apply Hdistinct. }
  cbv zeta in Hk. rewrite Hnames in Hk.
  cbn [with_can_open can_open files] in Hk. rewrite Hyes in Hk.
  destruct Hk as [_ ->]. rewrite Hflag, Hfile. symmetry. apply traced_after_records.
Qed.

End RelayTraceFacts.

(** The default file names on an empty disk: two relays discovered, one
    selected. *)
Lemma X10_trace_files_witness :
  let fs' :=
    snd (RelayTrace.run
           [(1, RelayTrace.RelayDiscoveryFired "/NodeList/2" 12 11 5 (of_Z (-80)));
            (2, RelayTrace.RelayDiscoveryFired "/NodeList/2" 12 13 5 (of_Z (-70)));
            (3, RelayTrace.RelaySelectionFired "/NodeList/2" 12 0 13 5 (of_Z (-70)))]
           RelayTrace.default_trace
           (RelayTrace.mkFileSystem ∅ (fun _ => true))) in
  RelayTrace.files fs' !! "NrSlRelayDiscoveryTrace.txt"
  = Some [RelayTrace.discovery_heading;
          RelayTrace.DiscoveryRecord 1 12 11 5 (of_Z (-80));
          RelayTrace.DiscoveryRecord 2 12 13 5 (of_Z (-70))] /\
  RelayTrace.files fs' !! "NrSlRelayRsrpTrace.txt" = None.
Proof.
  pose proof (X10_trace_files_after_a_run
                "NrSlRelayDiscoveryTrace.txt" "NrSlRelaySelectionTrace.txt"
                "NrSlRelayRsrpTrace.txt"
                (RelayTrace.mkFileSystem ∅ (fun _ => true))
                [(1, RelayTrace.RelayDiscoveryFired "/NodeList/2" 12 11 5 (of_Z (-80)));
                 (2, RelayTrace.RelayDiscoveryFired "/NodeList/2" 12 13 5 (of_Z (-70)));
                 (3, RelayTrace.RelaySelectionFired "/NodeList/2" 12 0 13 5 (of_Z (-70)))]
                ltac:(discriminate) ltac:(discriminate) ltac:(discriminate))
    as (HD & _ & HR & _).
  split; [exact HD | exact HR].
Defined.

(** A disk that refuses the discovery file during the first run. *)
Lemma X11_trace_records_lost_witness :
  RelayTrace.files
    (snd (RelayTrace.run
            [(7, RelayTrace.RelayDiscoveryFired "/NodeList/2" 12 13 5 (of_Z (-70)))]
            (fst (RelayTrace.run
                    [(1, RelayTrace.RelayDiscoveryFired "/NodeList/2" 12 11 5 (of_Z (-80)))]
                    RelayTrace.default_trace
                    (RelayTrace.mkFileSystem ∅ (fun _ => false))))
            (RelayTrace.with_can_open
               (snd (RelayTrace.run
                       [(1, RelayTrace.RelayDiscoveryFired "/NodeList/2" 12 11 5 (of_Z (-80)))]
                       RelayTrace.default_trace
                       (RelayTrace.mkFileSystem ∅ (fun _ => false))))
               (fun _ => true))))
  !! "NrSlRelayDiscoveryTrace.txt"
  = Some [RelayTrace.discovery_heading;
          RelayTrace.DiscoveryRecord 7 12 13 5 (of_Z (-70))].
Proof.
  apply (X11_trace_records_lost_while_unopenable
           "NrSlRelayDiscoveryTrace.txt" "NrSlRelaySelectionTrace.txt"
           "NrSlRelayRsrpTrace.txt"
           (RelayTrace.mkFileSystem ∅ (fun _ => false)) (fun _ => true)
           RelayTrace.Discovery
           [(1, RelayTrace.RelayDiscoveryFired "/NodeList/2" 12 11 5 (of_Z (-80)))]
           [(7, RelayTrace.RelayDiscoveryFired "/NodeList/2" 12 13 5 (of_Z (-70)))]
           ltac:(discriminate) ltac:(discriminate) ltac:(discriminate)
           eq_refl eq_refl).
Defined.

(** ** Relay discovery and relay service set up by the helper *)

Section RelaySetupFacts.

Import RelaySetup.

Variable drb_id : list Activation -> Activation -> Z.

Lemma add_events_nil (w : World) : add_events w [] = w.
Proof. destruct w. unfold add_events. simpl. by rewrite app_nil_r. Qed.

Lemma add_events_app (w : World) (es es' : list (Time * StartRelayDiscoveryCall)) :
  add_events (add_events w es) es' = add_events w (es ++ es').
Proof. unfold add_events. simpl. by rewrite app_assoc. Qed.

Lemma vector_index_Some {A} (v : list A) (i : nat) (x : A) (w : World) :
  v !! i = Some x -> vector_index v i w = (Ret x, w).
Proof. intros Hx. unfold vector_index. by rewrite Hx. Qed.

Lemma vector_index_None {A} (v : list A) (i : nat) (w : World) :
  (length v <= i)%nat -> vector_index v i w = (Undefined, w).
Proof.
  intros Hi. unfold vector_index. by rewrite (lookup_ge_None_2 v i Hi).
Qed.

(** The first loop, when the three vectors reach as far as the relays. *)
Lemma schedule_relays_ok (relayDevices : list NetDevice) (relayTime : list Time)
    (relayCodes dstL2Ids : list Z) (m : DiscoveryModel) :
  forall (i : nat) (w : World),
    (i + length relayDevices <= length relayTime)%nat ->
    (i + length relayDevices <= length relayCodes)%nat ->
    (i + length relayDevices <= length dstL2Ids)%nat ->
    schedule_relays i relayDevices relayTime relayCodes dstL2Ids m w
    = (Ret tt,
       add_events w (relay_starts relayDevices (drop i relayTime)
                                  (drop i relayCodes) (drop i dstL2Ids) m)).
Proof.
  induction relayDevices as [|dev rest IH]; intros i w Ht Hc Hd.
  - simpl. by rewrite add_events_nil.
  - simpl in Ht, Hc, Hd.
    destruct (lookup_lt_is_Some_2 relayTime i) as [t Et]; [lia|].
    destruct (lookup_lt_is_Some_2 relayCodes i) as [c Ec]; [lia|].
    destruct (lookup_lt_is_Some_2 dstL2Ids i) as [dl Ed]; [lia|].
    cbn [schedule_relays]. unfold bind.
    rewrite (vector_index_Some _ _ _ _ Et), (vector_index_Some _ _ _ _ Ec),
      (vector_index_Some _ _ _ _ Ed).
    unfold Schedule. rewrite IH by lia.
    rewrite (drop_S _ _ _ Et), (drop_S _ _ _ Ec), (drop_S _ _ _ Ed).
    unfold relay_starts. simpl. unfold add_events. simpl.
    by rewrite <- app_assoc.
Qed.

(** The inner loop for one remote device. *)
Lemma schedule_remote_ok (dev : NetDevice) (j : nat) (remoteTime : list Time)
    (relayCodes dstL2Ids : list Z) (m : DiscoveryModel) (t : Time) :
  remoteTime !! j = Some t ->
  forall (n k : nat) (w : World),
    (k + n <= length relayCodes)%nat ->
    (k + n <= length dstL2Ids)%nat ->
    schedule_remote n k dev j remoteTime relayCodes dstL2Ids m w
    = (Ret tt,
       add_events w
         (map (fun y => (t, {| ueDevice := dev; relayCode := fst y;
                               dstL2Id := snd y; model := m;
                               role := Helper.RemoteUE |}))
              (take n (combine (drop k relayCodes) (drop k dstL2Ids))))).
Proof.
  intros Et. induction n as [|n IH]; intros k w Hc Hd.
  - simpl. by rewrite add_events_nil.
  - destruct (lookup_lt_is_Some_2 relayCodes k) as [c Ec]; [lia|].
    destruct (lookup_lt_is_Some_2 dstL2Ids k) as [dl Ed]; [lia|].
    cbn [schedule_remote]. unfold bind.
    rewrite (vector_index_Some _ _ _ _ Et), (vector_index_Some _ _ _ _ Ec),
      (vector_index_Some _ _ _ _ Ed).
    unfold Schedule. rewrite IH by lia.
    rewrite (drop_S _ _ _ Ec), (drop_S _ _ _ Ed).
    simpl. unfold add_events. simpl. by rewrite <- app_assoc.
Qed.

(** The second loop. *)
Lemma schedule_remotes_ok (remoteDevices : list NetDevice) (n : nat)
    (remoteTime : list Time) (relayCodes dstL2Ids : list Z) (m : DiscoveryModel) :
  (n <= length relayCodes)%nat ->
  (n <= length dstL2Ids)%nat ->
  forall (j : nat) (w : World),
    (j + length remoteDevices <= length remoteTime)%nat ->
    schedule_remotes j remoteDevices n remoteTime relayCodes dstL2Ids m w
    = (Ret tt,
       add_events w (remote_starts remoteDevices (drop j remoteTime) n
                                   relayCodes dstL2Ids m)).
Proof.
  intros Hc Hd.
  induction remoteDevices as [|dev rest IH]; intros j w Ht.
  - simpl. by rewrite add_events_nil.
  - simpl in Ht.
    destruct (lookup_lt_is_Some_2 remoteTime j) as [t Et]; [lia|].
    cbn [schedule_remotes]. unfold bind.
    rewrite (schedule_remote_ok dev j remoteTime relayCodes dstL2Ids m t Et)
      by (simpl; lia).
    rewrite IH by lia. rewrite add_events_app.
    rewrite (drop_S _ _ _ Et). unfold remote_starts. simpl.
    by rewrite !drop_0.
Qed.


(** *** What the helper's computations leave alone *)

Lemma keeps_events_ret {A} (a : A) : keeps_events (ret a).
Proof. by intros w. Qed.

Lemma keeps_events_bind {A B} (m : M A) (k : A -> M B) :
  keeps_events m -> (forall a, keeps_events (k a)) -> keeps_events (bind m k).
Proof.
  intros Hm Hk w. unfold bind. specialize (Hm w).
  destruct (m w) as [[a| | | |] w1]; simpl in *; try done.
  by rewrite Hk.
Qed.

Lemma keeps_events_get_device (dev : NetDevice) : keeps_events (get_device dev).
Proof. intros w. unfold get_device. by destruct (devices w !! dev). Qed.

Lemma keeps_events_call_prose (dev : NetDevice) (c : Call) :
  keeps_events (call_prose dev c).
Proof. intros w. unfold call_prose. by destruct (prose w !! dev). Qed.

Lemma keeps_events_measurements (dev : NetDevice) :
  keeps_events (EnableUeSlRsrpMeasurements dev).
Proof.
  intros w. unfold EnableUeSlRsrpMeasurements. by destruct (devices w !! dev).
Qed.

Lemma keeps_events_activate (dev : NetDevice) (imsi tft bearer : Z) :
  keeps_events (ActivateEpsBearer drb_id dev imsi tft bearer).
Proof. intros w. unfold ActivateEpsBearer. by destruct (m_epcHelper w). Qed.

Lemma keeps_events_configure_codes (dev : NetDevice) (imsi bearer tft : Z)
    (codes : list Z) :
  keeps_events (configure_codes drb_id dev imsi codes bearer tft).
Proof.
  induction codes as [|code codes IH]; cbn [configure_codes].
  - apply keeps_events_ret.
  - apply keeps_events_bind; [apply keeps_events_activate|]. intros drb.
    apply keeps_events_bind; [apply keeps_events_call_prose|]. by intros _.
Qed.

Lemma keeps_events_configure_devices (devs : list NetDevice) (codes : list Z)
    (bearer tft : Z) :
  keeps_events (configure_devices drb_id devs codes bearer tft).
Proof.
  induction devs as [|dev devs IH]; cbn [configure_devices].
  - apply keeps_events_ret.
  - apply keeps_events_bind; [apply keeps_events_get_device|]. intros d.
    apply keeps_events_bind; [apply keeps_events_configure_codes|]. intros _.
    apply keeps_events_bind; [|by intros _].
    intros w. apply keeps_events_call_prose.
Qed.

Lemma keeps_events_ConfigureL3 (devs : list NetDevice) (codes : list Z)
    (bearer tft : Z) :
  keeps_events (ConfigureL3UeToNetworkRelay drb_id devs codes bearer tft).
Proof.
  unfold ConfigureL3UeToNetworkRelay.
  apply keeps_events_bind; [|intros _; apply keeps_events_configure_devices].
  intros w. unfold NS_ASSERT_MSG. by destruct (bool_decide _).
Qed.

Lemma keeps_events_set_selection (devs : list NetDevice) (alg : AlgorithmPtr) :
  keeps_events (set_selection devs alg).
Proof.
  induction devs as [|dev devs IH]; cbn [set_selection].
  - apply keeps_events_ret.
  - apply keeps_events_bind; [apply keeps_events_get_device|]. intros _.
    apply keeps_events_bind; [apply keeps_events_call_prose|]. intros _.
    apply keeps_events_bind; [apply keeps_events_measurements|]. by intros _.
Qed.

Lemma same_but_events_refl (w : World) : same_but_events w w.
Proof. by repeat split. Qed.

Lemma same_but_events_vector_index {A} (v : list A) (i : nat) (w : World) :
  snd (vector_index v i w) = w.
Proof. unfold vector_index. by destruct (v !! i). Qed.

(** The first loop changes the scheduled events only, also when it runs
    off the end of a vector. *)
Lemma schedule_relays_frame (relayDevices : list NetDevice)
    (relayTime : list Time) (relayCodes dstL2Ids : list Z) (m : DiscoveryModel) :
  forall (i : nat) (w : World),
    same_but_events w
      (snd (schedule_relays i relayDevices relayTime relayCodes dstL2Ids m w)).
Proof.
  induction relayDevices as [|dev rest IH]; intros i w.
  - apply same_but_events_refl.
  - cbn [schedule_relays]. unfold bind, vector_index.
    destruct (relayTime !! i); [|apply same_but_events_refl].
    destruct (relayCodes !! i); [|apply same_but_events_refl].
    destruct (dstL2Ids !! i); [|apply same_but_events_refl].
    unfold Schedule.
    match goal with |- same_but_events _ (snd (schedule_relays _ _ _ _ _ _ ?w1)) =>
      specialize (IH (S i) w1) end.
    unfold same_but_events in *. by simpl in IH.
Qed.

Lemma schedule_remote_frame (dev : NetDevice) (j : nat) (remoteTime : list Time)
    (relayCodes dstL2Ids : list Z) (m : DiscoveryModel) :
  forall (n k : nat) (w : World),
    same_but_events w
      (snd (schedule_remote n k dev j remoteTime relayCodes dstL2Ids m w)).
Proof.
  induction n as [|n IH]; intros k w.
  - apply same_but_events_refl.
  - cbn [schedule_remote]. unfold bind, vector_index.
    destruct (remoteTime !! j); [|apply same_but_events_refl].
    destruct (relayCodes !! k); [|apply same_but_events_refl].
    destruct (dstL2Ids !! k); [|apply same_but_events_refl].
    unfold Schedule.
    match goal with |- same_but_events _ (snd (schedule_remote _ _ _ _ _ _ _ _ ?w1)) =>
      specialize (IH (S k) w1) end.
    unfold same_but_events in *. by simpl in IH.
Qed.

Lemma schedule_remotes_frame (remoteDevices : list NetDevice) (n : nat)
    (remoteTime : list Time) (relayCodes dstL2Ids : list Z) (m : DiscoveryModel) :
  forall (j : nat) (w : World),
    same_but_events w
      (snd (schedule_remotes j remoteDevices n remoteTime relayCodes dstL2Ids m w)).
Proof.
  induction remoteDevices as [|dev rest IH]; intros j w.
  - apply same_but_events_refl.
  - cbn [schedule_remotes]. unfold bind.
    pose proof (schedule_remote_frame dev j remoteTime relayCodes dstL2Ids m n 0 w)
      as H1.
    destruct (schedule_remote n 0 dev j remoteTime relayCodes dstL2Ids m w)
      as [[[]| | | |] w1]; cbn [snd] in *; try done.
    specialize (IH (S j) w1).
    unfold same_but_events in *. destruct H1 as (H1a & H1b & H1c & H1d).
    rewrite H1a, H1b, H1c, H1d in IH. exact IH.
Qed.

(** *** Running off the end of a vector *)

Lemma schedule_relays_short (relayDevices : list NetDevice)
    (relayTime : list Time) (relayCodes dstL2Ids : list Z) (m : DiscoveryModel) :
  forall (i : nat) (w : World),
    (i <= length relayTime)%nat -> (i <= length relayCodes)%nat ->
    (i <= length dstL2Ids)%nat ->
    (length relayTime < i + length relayDevices
     \/ length relayCodes < i + length relayDevices
     \/ length dstL2Ids < i + length relayDevices)%nat ->
    fst (schedule_relays i relayDevices relayTime relayCodes dstL2Ids m w)
    = Undefined.
Proof.
  induction relayDevices as [|dev rest IH]; intros i w Ht Hc Hd Hshort.
  - simpl in Hshort. lia.
  - cbn [schedule_relays]. simpl in Hshort. unfold bind, vector_index.
    destruct (relayTime !! i) as [t|] eqn:Et; [|done].
    destruct (relayCodes !! i) as [c|] eqn:Ec; [|done].
    destruct (dstL2Ids !! i) as [dl|] eqn:Ed; [|done].
    apply lookup_lt_Some in Et, Ec, Ed.
    unfold Schedule. apply IH; lia.
Qed.

Lemma schedule_remotes_short (remoteDevices : list NetDevice) (n : nat)
    (remoteTime : list Time) (relayCodes dstL2Ids : list Z) (m : DiscoveryModel) :
  (0 < n)%nat -> (n <= length relayCodes)%nat -> (n <= length dstL2Ids)%nat ->
  forall (j : nat) (w : World),
    (j <= length remoteTime)%nat ->
    (length remoteTime < j + length remoteDevices)%nat ->
    fst (schedule_remotes j remoteDevices n remoteTime relayCodes dstL2Ids m w)
    = Undefined.
Proof.
  intros Hn Hc Hd.
  induction remoteDevices as [|dev rest IH]; intros j w Hj Hshort.
  - simpl in Hshort. lia.
  - cbn [schedule_remotes]. simpl in Hshort. unfold bind.
    destruct (remoteTime !! j) as [t|] eqn:Et.
    + rewrite (schedule_remote_ok dev j remoteTime relayCodes dstL2Ids m t Et)
        by (simpl; lia).
      apply lookup_lt_Some in Et. apply IH; lia.
    + destruct n as [|n']; [lia|]. cbn [schedule_remote]. unfold bind, vector_index.
      by rewrite Et.
Qed.

(** *** The relay service configuration *)

Lemma configured_codes_configurations (asked : list Activation) (a : Activation)
    (codes : list Z) :
  configured_codes (configurations drb_id asked a codes) = codes
  /\ length (configurations drb_id asked a codes) = length codes.
Proof.
  revert asked. induction codes as [|code codes IH]; intros asked; [done|].
  simpl. destruct (IH (asked ++ [a])) as [-> ->]. done.
Qed.

Lemma configure_codes_run (dev : NetDevice) (imsi bearer tft : Z) :
  forall (codes : list Z) (w : World) (e : EpcHelperPtr) (calls : list Call),
    m_epcHelper w = Some e ->
    prose w !! dev = Some calls ->
    let a := {| act_device := dev; act_imsi := imsi;
                act_tft := tft; act_bearer := bearer |} in
    configure_codes drb_id dev imsi codes bearer tft w
    = (Ret tt,
       {| m_epcHelper := m_epcHelper w; devices := devices w;
          prose := <[dev := calls ++ configurations drb_id (activated w) a codes]>
                     (prose w);
          activated := activated w ++ replicate (length codes) a;
          events := events w |}).
Proof.
  induction codes as [|code codes IH]; intros w e calls He Hcalls a.
  - simpl. unfold ret. f_equal. destruct w; simpl in *.
    rewrite !app_nil_r. by rewrite insert_id.
  - cbn [configure_codes]. unfold bind, ActivateEpsBearer. rewrite He.
    unfold call_prose at 1. cbn [prose]. rewrite Hcalls.
    erewrite IH; cbn [m_epcHelper prose]; [|reflexivity|apply lookup_insert_eq].
    cbn [m_epcHelper devices prose activated events].
    f_equal. f_equal.
    + rewrite insert_insert_eq. by rewrite <- app_assoc.
    + by rewrite <- app_assoc.
Qed.

Lemma configure_devices_run (codes : list Z) (bearer tft : Z) (e : EpcHelperPtr) :
  forall (devs : list NetDevice) (w : World),
    m_epcHelper w = Some e -> NoDup devs -> all_prepared w devs ->
    exists w',
      configure_devices drb_id devs codes bearer tft w = (Ret tt, w')
      /\ m_epcHelper w' = Some e /\ devices w' = devices w
      /\ events w' = events w
      /\ activated w'
         = activated w ++ relay_activations (devices w) devs codes bearer tft
      /\ (forall dev, ~ In dev devs -> prose w' !! dev = prose w !! dev)
      /\ (forall dev calls, In dev devs -> prose w !! dev = Some calls ->
            exists new,
              prose w' !! dev = Some (calls ++ new ++ [SetEpcHelper (Some e)])
              /\ configured_codes new = codes
              /\ length new = length codes).
Proof.
  induction devs as [|dev rest IH]; intros w He Hnd Hprep.
  - exists w. simpl. unfold relay_activations. simpl. rewrite app_nil_r.
    repeat split; try done; intros dev calls [].
  - apply NoDup_cons in Hnd as [Hnotin Hnd].
    destruct (Hprep dev (or_introl eq_refl)) as [[d Ed] [calls0 Ec0]].
    cbn [configure_devices]. unfold bind at 1. unfold get_device. rewrite Ed.
    unfold bind at 1.
    rewrite (configure_codes_run dev (GetImsi d) bearer tft codes w e calls0 He Ec0).
    unfold bind at 1. unfold call_prose at 1. cbn [prose m_epcHelper].
    rewrite lookup_insert_eq, insert_insert_eq, He.
    cbn [m_epcHelper devices prose activated events].
    set (a := {| act_device := dev; act_imsi := GetImsi d;
                 act_tft := tft; act_bearer := bearer |}).
    set (confs := configurations drb_id (activated w) a codes).
    set (w1 := {| m_epcHelper := Some e; devices := devices w;
                  prose := <[dev := (calls0 ++ confs) ++ [SetEpcHelper (Some e)]]>
                             (prose w);
                  activated := activated w ++ replicate (length codes) a;
                  events := events w |}).
    assert (Hne : forall dev', In dev' rest -> dev <> dev').
    { intros dev' Hin ->. apply Hnotin. by apply list_elem_of_In. }
    destruct (IH w1) as (w' & Hrun & He' & Hdev' & Hev' & Hact' & Hout & Hin);
      [done|done| |].
    { intros dev' Hdev'. destruct (Hprep dev' (or_intror Hdev')) as [Hd Hp].
      split; [exact Hd|]. subst w1. cbn [prose].
      by rewrite lookup_insert_ne by (by apply Hne). }
    exists w'. split; [exact Hrun|]. split; [exact He'|].
    split; [by rewrite Hdev'|]. split; [by rewrite Hev'|].
    split.
    { rewrite Hact'. subst w1. cbn [activated devices].
      unfold relay_activations. cbn [flat_map]. rewrite Ed.
      by rewrite <- app_assoc. }
    split.
    { intros dev' Hnot. rewrite Hout by (intros ?; apply Hnot; by right).
      subst w1. cbn [prose]. apply lookup_insert_ne.
      intros ->. apply Hnot. by left. }
    intros dev' calls [<-|Hrest] Hcalls.
    + rewrite Ec0 in Hcalls. injection Hcalls as <-.
      exists confs. split.
      * rewrite Hout by (by rewrite <- list_elem_of_In).
        subst w1. cbn [prose]. rewrite lookup_insert_eq. by rewrite <- app_assoc.
      * apply configured_codes_configurations.
    + apply Hin; [exact Hrest|]. subst w1. cbn [prose].
      by rewrite lookup_insert_ne by (by apply Hne).
Qed.

Lemma set_selection_run (alg : AlgorithmPtr) :
  forall (devs : list NetDevice) (w : World),
    NoDup devs -> all_prepared w devs ->
    exists w',
      set_selection devs alg w = (Ret tt, w')
      /\ m_epcHelper w' = m_epcHelper w /\ activated w' = activated w
      /\ events w' = events w
      /\ (forall dev, ~ In dev devs ->
            prose w' !! dev = prose w !! dev
            /\ devices w' !! dev = devices w !! dev)
      /\ (forall dev calls d, In dev devs ->
            prose w !! dev = Some calls -> devices w !! dev = Some d ->
            prose w' !! dev = Some (calls ++ [SetRelaySelectionAlgorithm alg])
            /\ devices w' !! dev
               = Some {| GetImsi := GetImsi d; GetRrc := GetRrc d;
                         slRsrpMeasurements := true |}).
Proof.
  induction devs as [|dev rest IH]; intros w Hnd Hprep.
  - exists w. simpl. repeat split; try done; intros dev calls d [].
  - apply NoDup_cons in Hnd as [Hnotin Hnd].
    destruct (Hprep dev (or_introl eq_refl)) as [[d Ed] [calls0 Ec0]].
    cbn [set_selection]. unfold bind at 1. unfold get_device. rewrite Ed.
    unfold bind at 1. unfold call_prose at 1. rewrite Ec0.
    unfold bind at 1. unfold EnableUeSlRsrpMeasurements at 1. cbn [devices].
    rewrite Ed. cbn [m_epcHelper devices prose activated events].
    set (w1 := {| m_epcHelper := m_epcHelper w;
                  devices := <[dev := {| GetImsi := GetImsi d; GetRrc := GetRrc d;
                                         slRsrpMeasurements := true |}]> (devices w);
                  prose := <[dev := calls0 ++ [SetRelaySelectionAlgorithm alg]]>
                             (prose w);
                  activated := activated w; events := events w |}).
    assert (Hne : forall dev', In dev' rest -> dev <> dev').
    { intros dev' Hin ->. apply Hnotin. by apply list_elem_of_In. }
    destruct (IH w1) as (w' & Hrun & He' & Hact' & Hev' & Hout & Hin); [done| |].
    { intros dev' Hdev'. destruct (Hprep dev' (or_intror Hdev')) as [Hd Hp].
      subst w1. cbn [prose devices].
      by rewrite !lookup_insert_ne by (by apply Hne). }
    exists w'. split; [exact Hrun|]. split; [by rewrite He'|].
    split; [by rewrite Hact'|]. split; [by rewrite Hev'|]. split.
    { intros dev' Hnot.
      destruct (Hout dev') as [-> ->]; [intros ?; apply Hnot; by right|].
      subst w1. cbn [prose devices].
      assert (dev <> dev') by (intros ->; apply Hnot; by left).
      by rewrite !lookup_insert_ne. }
    intros dev' calls d' [<-|Hrest] Hcalls Hd'.
    + rewrite Ec0 in Hcalls. injection Hcalls as <-.
      rewrite Ed in Hd'. injection Hd' as <-.
      destruct (Hout dev) as [-> ->]; [by rewrite <- list_elem_of_In|].
      subst w1. cbn [prose devices]. by rewrite !lookup_insert_eq.
    + apply Hin; [exact Hrest| |]; subst w1; cbn [prose devices];
        by rewrite lookup_insert_ne by (by apply Hne).
Qed.

(** *** The set of relay service codes *)

Lemma StronglySorted_le_NoDup_lt (l : list Z) :
  StronglySorted Z.le l -> NoDup l -> StronglySorted Z.lt l.
Proof.
  induction 1 as [|x l Hs IH Hall]; intros Hnd; constructor.
  - apply IH. by apply NoDup_cons in Hnd as [_ ?].
  - apply NoDup_cons in Hnd as [Hx _].
    apply Forall_forall. intros y Hy.
    assert (x <= y)%Z by (by eapply Forall_forall in Hall).
    assert (x <> y) by (by intros ->). lia.
Qed.

Lemma std_set_ascending (v : list Z) : StronglySorted Z.lt (std_set v).
Proof.
  unfold std_set. apply StronglySorted_le_NoDup_lt.
  - apply (StronglySorted_merge_sort Z.le).
  - rewrite merge_sort_Permutation. apply NoDup_remove_dups.
Qed.

Lemma std_set_members (v : list Z) (c : Z) : In c (std_set v) <-> In c v.
Proof.
  unfold std_set. rewrite <- !list_elem_of_In.
  rewrite merge_sort_Permutation. apply elem_of_remove_dups.
Qed.


Lemma ConfigureL3_with_helper (devs : list NetDevice) (codes : list Z)
    (bearer tft : Z) (w : World) (e : EpcHelperPtr) :
  m_epcHelper w = Some e ->
  ConfigureL3UeToNetworkRelay drb_id devs codes bearer tft w
  = configure_devices drb_id devs codes bearer tft w.
Proof.
  intros He. unfold ConfigureL3UeToNetworkRelay, bind, NS_ASSERT_MSG.
  rewrite He. by rewrite bool_decide_true by eauto.
Qed.

Lemma relay_starts_length (relayDevices : list NetDevice) (relayTime : list Time)
    (relayCodes dstL2Ids : list Z) (m : DiscoveryModel) :
  (length relayDevices <= length relayTime)%nat ->
  (length relayDevices <= length relayCodes)%nat ->
  (length relayDevices <= length dstL2Ids)%nat ->
  length (relay_starts relayDevices relayTime relayCodes dstL2Ids m)
  = length relayDevices.
Proof.
  intros. unfold relay_starts. rewrite length_map, !length_combine. lia.
Qed.

Lemma remote_starts_length (remoteDevices : list NetDevice) (remoteTime : list Time)
    (n : nat) (relayCodes dstL2Ids : list Z) (m : DiscoveryModel) :
  (n <= length relayCodes)%nat -> (n <= length dstL2Ids)%nat ->
  (length remoteDevices <= length remoteTime)%nat ->
  length (remote_starts remoteDevices remoteTime n relayCodes dstL2Ids m)
  = (length remoteDevices * n)%nat.
Proof.
  intros Hc Hd Ht. unfold remote_starts.
  assert (Hl : length (combine remoteDevices remoteTime) = length remoteDevices)
    by (rewrite length_combine; lia).
  rewrite <- Hl. clear Hl Ht.
  induction (combine remoteDevices remoteTime) as [|x l IH]; [done|].
  cbn [flat_map]. rewrite length_app, IH, length_map, length_take, length_combine.
  simpl. lia.
Qed.

(** X12.  [StartRemoteRelayConnection] schedules, after what was scheduled
    before, first one relay discovery start per relay UE (relay i with code i
    and destination i at time i, as [RelayUE]), then for each remote UE in
    turn, at its own time, one start per relay as [RemoteUE], with the codes
    and destinations of the relays in their order; that is one event per
    relay and one per pair of a remote and a relay, whatever becomes of the
    configuration that follows. *)
Theorem X12_StartRemoteRelayConnection_schedules
    (remoteDevices : list NetDevice) (remoteTime : list Time)
    (relayDevices : list NetDevice) (relayTime : list Time)
    (relayCodes dstL2Ids : list Z) (m : DiscoveryModel)
    (alg : AlgorithmPtr) (tft bearer : Z) (w : World)
    (Hrt : (length relayDevices <= length relayTime)%nat)
    (Hrc : (length relayDevices <= length relayCodes)%nat)
    (Hrd : (length relayDevices <= length dstL2Ids)%nat)
    (Hmt : (length remoteDevices <= length remoteTime)%nat) :
  let after :=
    snd (StartRemoteRelayConnection drb_id remoteDevices remoteTime
           relayDevices relayTime relayCodes dstL2Ids m alg tft bearer w) in
  let relays := relay_starts relayDevices relayTime relayCodes dstL2Ids m in
  let remotes := remote_starts remoteDevices remoteTime (length relayDevices)
                   relayCodes dstL2Ids m in
  events after = events w ++ relays ++ remotes
  /\ length relays = length relayDevices
  /\ length remotes = (length remoteDevices * length relayDevices)%nat.
Proof.
  cbv zeta. split; [|split].
  - unfold StartRemoteRelayConnection. unfold bind at 1.
    rewrite schedule_relays_ok by (simpl; lia). rewrite !drop_0.
    unfold bind at 1.
    rewrite schedule_remotes_ok by (simpl; lia). rewrite drop_0.
    rewrite (keeps_events_bind _ _
               (keeps_events_ConfigureL3 relayDevices (std_set relayCodes) bearer tft)
               (fun _ => keeps_events_set_selection remoteDevices alg)).
    simpl. by rewrite <- app_assoc.
  - by apply relay_starts_length.
  - by apply remote_starts_length.
Qed.

(** X13.  The vectors are indexed without a check: when one of
    [relayTime], [relayCodes] and [dstL2Ids] is shorter than the relay
    devices, or, with at least one relay and those three long enough,
    [remoteTime] is shorter than the remote devices,
    [StartRemoteRelayConnection] runs into undefined behaviour while it
    schedules, before any relay was configured and before any remote UE got
    its selection algorithm. *)
Theorem X13_StartRemoteRelayConnection_short_vector
    (remoteDevices : list NetDevice) (remoteTime : list Time)
    (relayDevices : list NetDevice) (relayTime : list Time)
    (relayCodes dstL2Ids : list Z) (m : DiscoveryModel)
    (alg : AlgorithmPtr) (tft bearer : Z) (w : World)
    (Hshort :
       (length relayTime < length relayDevices
        \/ length relayCodes < length relayDevices
        \/ length dstL2Ids < length relayDevices)%nat
       \/ (0 < length relayDevices
           /\ length relayDevices <= length relayTime
           /\ length relayDevices <= length relayCodes
           /\ length relayDevices <= length dstL2Ids
           /\ length remoteTime < length remoteDevices)%nat) :
  let res := StartRemoteRelayConnection drb_id remoteDevices remoteTime
               relayDevices relayTime relayCodes dstL2Ids m alg tft bearer w in
  fst res = Undefined /\ same_but_events w (snd res).
Proof.
  cbv zeta.
  assert (exists w',
            StartRemoteRelayConnection drb_id remoteDevices remoteTime
              relayDevices relayTime relayCodes dstL2Ids m alg tft bearer w
            = (Undefined, w') /\ same_but_events w w') as (w' & -> & Hf);
    [|by split].
  unfold StartRemoteRelayConnection. unfold bind at 1.
  destruct Hshort as [Hshort|(Hn & Hrt & Hrc & Hrd & Hmt)].
  - pose proof (schedule_relays_short relayDevices relayTime relayCodes dstL2Ids
                  m 0 w ltac:(lia) ltac:(lia) ltac:(lia) ltac:(simpl; lia)) as Hu.
    pose proof (schedule_relays_frame relayDevices relayTime relayCodes dstL2Ids
                  m 0 w) as Hf.
    destruct (schedule_relays 0 relayDevices relayTime relayCodes dstL2Ids m w)
      as [o w1]. simpl in Hu, Hf. subst o. by exists w1.
  - rewrite schedule_relays_ok by (simpl; lia). unfold bind at 1.
    set (w1 := add_events w _).
    pose proof (schedule_remotes_short remoteDevices (length relayDevices)
                  remoteTime relayCodes dstL2Ids m Hn Hrc Hrd 0 w1
                  ltac:(lia) ltac:(simpl; lia)) as Hu.
    pose proof (schedule_remotes_frame remoteDevices (length relayDevices)
                  remoteTime relayCodes dstL2Ids m 0 w1) as Hf.
    destruct (schedule_remotes 0 remoteDevices (length relayDevices) remoteTime
                relayCodes dstL2Ids m w1) as [o w2].
    simpl in Hu, Hf. subst o. exists w2. split; [done|]. exact Hf.
Qed.

(** X14.  [ConfigureL3UeToNetworkRelay], in a build with assertions, stops
    with its message and changes nothing when the helper has no EPC helper.
    With one, on distinct relay devices that have their ProSe layer, it
    returns; each relay's ProSe layer then received, after what it had
    received before, one service configuration per relay service code, in the
    order of the codes, and the EPC helper last; the EPC helper was asked for
    one bearer per device and code, device by device, with the IMSI of the
    device; other ProSe layers, the devices and the scheduled events are as
    before. *)
Theorem X14_ConfigureL3UeToNetworkRelay_configures
    (relayUeDevices : list NetDevice) (relayServiceCodes : list Z)
    (bearer tft : Z) (w : World) :
  (m_epcHelper w = None ->
   ConfigureL3UeToNetworkRelay drb_id relayUeDevices relayServiceCodes bearer tft w
   = (FatalError no_epc_helper, w))
  /\ (forall e, m_epcHelper w = Some e -> NoDup relayUeDevices ->
      all_prepared w relayUeDevices ->
      exists w',
        ConfigureL3UeToNetworkRelay drb_id relayUeDevices relayServiceCodes
          bearer tft w = (Ret tt, w')
        /\ m_epcHelper w' = Some e /\ devices w' = devices w
        /\ events w' = events w
        /\ activated w'
           = activated w ++ relay_activations (devices w) relayUeDevices
                              relayServiceCodes bearer tft
        /\ (forall dev, ~ In dev relayUeDevices ->
              prose w' !! dev = prose w !! dev)
        /\ (forall dev calls, In dev relayUeDevices ->
              prose w !! dev = Some calls ->
              exists new,
                prose w' !! dev = Some (calls ++ new ++ [SetEpcHelper (Some e)])
                /\ configured_codes new = relayServiceCodes
                /\ length new = length relayServiceCodes)).
Proof.
  split.
  - intros He. unfold ConfigureL3UeToNetworkRelay, bind, NS_ASSERT_MSG.
    rewrite He. rewrite bool_decide_false; [done|].
    intros [x Hx]. discriminate.
  - intros e He Hnd Hprep. rewrite (ConfigureL3_with_helper _ _ _ _ _ _ He).
    by apply configure_devices_run.
Qed.

(** X15.  With vectors as long as the devices they are indexed for, an EPC
    helper, and relay and remote devices that are distinct, disjoint and have
    their ProSe layer, [StartRemoteRelayConnection] returns.  Every relay UE
    is then configured once for each different relay code, in ascending
    order of the codes, however often and in whatever order the codes were
    given, and has the EPC helper; every remote UE has the selection
    algorithm and its RSRP measurements enabled; nothing else was called on a
    ProSe layer, and no other device changed. *)
Theorem X15_StartRemoteRelayConnection_configures
    (remoteDevices : list NetDevice) (remoteTime : list Time)
    (relayDevices : list NetDevice) (relayTime : list Time)
    (relayCodes dstL2Ids : list Z) (m : DiscoveryModel)
    (alg : AlgorithmPtr) (tft bearer : Z) (w : World) (e : EpcHelperPtr)
    (Hrt : (length relayDevices <= length relayTime)%nat)
    (Hrc : (length relayDevices <= length relayCodes)%nat)
    (Hrd : (length relayDevices <= length dstL2Ids)%nat)
    (Hmt : (length remoteDevices <= length remoteTime)%nat)
    (He : m_epcHelper w = Some e)
    (Hrelays : NoDup relayDevices) (Hremotes : NoDup remoteDevices)
    (Hdisjoint : forall dev, In dev relayDevices -> ~ In dev remoteDevices)
    (Hprelays : all_prepared w relayDevices)
    (Hpremotes : all_prepared w remoteDevices) :
  exists w',
    StartRemoteRelayConnection drb_id remoteDevices remoteTime relayDevices
      relayTime relayCodes dstL2Ids m alg tft bearer w = (Ret tt, w')
    /\ (forall dev calls, In dev relayDevices -> prose w !! dev = Some calls ->
          devices w' !! dev = devices w !! dev
          /\ exists new,
               prose w' !! dev = Some (calls ++ new ++ [SetEpcHelper (Some e)])
               /\ configured_codes new = std_set relayCodes
               /\ length new = length (std_set relayCodes))
    /\ (forall dev calls d, In dev remoteDevices ->
          prose w !! dev = Some calls -> devices w !! dev = Some d ->
          prose w' !! dev = Some (calls ++ [SetRelaySelectionAlgorithm alg])
          /\ devices w' !! dev
             = Some {| GetImsi := GetImsi d; GetRrc := GetRrc d;
                       slRsrpMeasurements := true |})
    /\ (forall dev, ~ In dev relayDevices -> ~ In dev remoteDevices ->
          prose w' !! dev = prose w !! dev
          /\ devices w' !! dev = devices w !! dev)
    /\ activated w'
       = activated w ++ relay_activations (devices w) relayDevices
                          (std_set relayCodes) bearer tft
    /\ StronglySorted Z.lt (std_set relayCodes)
    /\ (forall c, In c (std_set relayCodes) <-> In c relayCodes).
Proof.
  unfold StartRemoteRelayConnection. unfold bind at 1.
  rewrite schedule_relays_ok by (simpl; lia). unfold bind at 1.
  rewrite schedule_remotes_ok by (simpl; lia). rewrite add_events_app.
  set (w2 := add_events w _).
  unfold bind at 1.
  rewrite (ConfigureL3_with_helper _ _ _ _ w2 e He).
  destruct (configure_devices_run (std_set relayCodes) bearer tft e relayDevices w2)
    as (w3 & Hrun3 & He3 & Hdev3 & Hev3 & Hact3 & Hout3 & Hin3); [done..|].
  rewrite Hrun3.
  destruct (set_selection_run alg remoteDevices w3)
    as (w4 & Hrun4 & He4 & Hact4 & Hev4 & Hout4 & Hin4); [done| |].
  { intros dev Hdev. destruct (Hpremotes dev Hdev) as [Hd Hp].
    rewrite Hdev3. split; [exact Hd|].
    rewrite Hout3; [exact Hp|]. intros Hr. by apply (Hdisjoint dev). }
  exists w4. split; [exact Hrun4|]. split; [|split; [|split; [|split; [|split]]]].
  - intros dev calls Hdev Hcalls.
    destruct (Hout4 dev (Hdisjoint dev Hdev)) as [-> ->].
    split; [by rewrite Hdev3|]. by apply Hin3.
  - intros dev calls d Hdev Hcalls Hd. apply Hin4; [exact Hdev| |].
    + rewrite Hout3; [exact Hcalls|]. intros Hr. by apply (Hdisjoint dev).
    + by rewrite Hdev3.
  - intros dev Hnr Hnm. destruct (Hout4 dev Hnm) as [-> ->].
    split; [by apply Hout3 | by rewrite Hdev3].
  - by rewrite Hact4, Hact3.
  - apply std_set_ascending.
  - apply std_set_members.
Qed.

(** *** Unicast preparation *)

Lemma call_prose_snoc (dev : NetDevice) (c : Call) (w : World) (calls : list Call) :
  prose w !! dev = Some calls ->
  call_prose dev c w
  = (Ret tt, {| m_epcHelper := m_epcHelper w; devices := devices w;
                prose := <[dev := calls ++ [c]]> (prose w);
                activated := activated w; events := events w |}).
Proof. intros H. unfold call_prose. by rewrite H. Qed.

(** X16.  [PrepareUesForUnicast] on a container whose devices all have
    their ProSe layer returns, and has called [ConfigureUnicast] on the
    ProSe layer of a device once for each time the device is in the
    container: a device listed twice is configured twice, one not listed is
    not touched; nothing else changes. *)
Theorem X16_PrepareUesForUnicast_once_per_entry
    (c : list NetDevice) (w : World) (Hprepared : all_prepared w c) :
  exists w',
    PrepareUesForUnicast c w = (Ret tt, w')
    /\ m_epcHelper w' = m_epcHelper w /\ devices w' = devices w
    /\ activated w' = activated w /\ events w' = events w
    /\ forall dev : NetDevice,
         prose w' !! dev
         = (fun calls => calls ++ replicate (count_occ Nat.eq_dec c dev)
                                            ConfigureUnicast)
           <$> prose w !! dev.
Proof.
  revert w Hprepared. induction c as [|netDev c IH]; intros w Hprepared.
  - exists w. repeat split; try done. intros dev. simpl.
    destruct (prose w !! dev); simpl; [|done]. by rewrite app_nil_r.
  - destruct (Hprepared netDev (or_introl eq_refl)) as [[d Ed] [calls0 Ec0]].
    cbn [PrepareUesForUnicast]. unfold bind at 1.
    unfold PrepareSingleUeForUnicast, bind, get_device. rewrite Ed.
    rewrite (call_prose_snoc _ _ _ _ Ec0).
    set (w1 := {| m_epcHelper := m_epcHelper w; devices := devices w;
                  prose := <[netDev := calls0 ++ [ConfigureUnicast]]> (prose w);
                  activated := activated w; events := events w |}).
    destruct (IH w1) as (w' & Hrun & He & Hd & Ha & Hev & Hp).
    { intros dev Hdev. destruct (Hprepared dev (or_intror Hdev)) as [Hd Hp].
      split; [exact Hd|]. subst w1. cbn [prose].
      destruct (decide (netDev = dev)) as [->|Hne].
      - rewrite lookup_insert_eq. eauto.
      - by rewrite lookup_insert_ne. }
    exists w'. split; [exact Hrun|]. repeat split; try done.
    intros dev. rewrite Hp. subst w1. cbn [prose count_occ].
    destruct (Nat.eq_dec netDev dev) as [->|Hne].
    + rewrite lookup_insert_eq, Ec0. simpl. by rewrite <- app_assoc.
    + by rewrite lookup_insert_ne.
Qed.

End RelaySetupFacts.

(** Relays 1 and 2 with codes 33 and 34, remote 3: two starts as relay, then
    two as remote at the time of the remote. *)
Lemma X12_StartRemoteRelayConnection_witness :
  RelaySetup.events
    (snd (RelaySetup.StartRemoteRelayConnection RelaySetup.numbered_drb
            [3%nat] [50] [1%nat; 2%nat] [10; 20] [33; 34] [501; 502]
            RelaySetup.ModelA 0%nat 5 9 RelaySetup.relays_and_remote))
  = [(10, RelaySetup.mkStartRelayDiscoveryCall 1%nat 33 501 RelaySetup.ModelA
            Helper.RelayUE);
     (20, RelaySetup.mkStartRelayDiscoveryCall 2%nat 34 502 RelaySetup.ModelA
            Helper.RelayUE);
     (50, RelaySetup.mkStartRelayDiscoveryCall 3%nat 33 501 RelaySetup.ModelA
            Helper.RemoteUE);
     (50, RelaySetup.mkStartRelayDiscoveryCall 3%nat 34 502 RelaySetup.ModelA
            Helper.RemoteUE)].
Proof.
  apply (X12_StartRemoteRelayConnection_schedules RelaySetup.numbered_drb
           [3%nat] [50] [1%nat; 2%nat] [10; 20] [33; 34] [501; 502]
           RelaySetup.ModelA 0%nat 5 9 RelaySetup.relays_and_remote);
    simpl; lia.
Defined.

(** Two relays and one relay code. *)
Lemma X13_StartRemoteRelayConnection_witness :
  fst (RelaySetup.StartRemoteRelayConnection RelaySetup.numbered_drb
         [3%nat] [50] [1%nat; 2%nat] [10; 20] [33] [501; 502]
         RelaySetup.ModelA 0%nat 5 9 RelaySetup.relays_and_remote)
  = Undefined.
Proof.
  apply (X13_StartRemoteRelayConnection_short_vector RelaySetup.numbered_drb
           [3%nat] [50] [1%nat; 2%nat] [10; 20] [33] [501; 502]
           RelaySetup.ModelA 0%nat 5 9 RelaySetup.relays_and_remote).
  left. right. left. simpl. lia.
Defined.

Lemma relays_and_remote_prepared (devs : list RelaySetup.NetDevice) :
  Forall (fun dev => (1 <= dev <= 3)%nat) devs ->
  RelaySetup.all_prepared RelaySetup.relays_and_remote devs.
Proof.
  intros Hall dev Hdev. rewrite Forall_forall in Hall.
  apply list_elem_of_In, Hall in Hdev.
  assert (dev = 1 \/ dev = 2 \/ dev = 3)%nat as Hcases by lia.
  destruct Hcases as [-> | [-> | ->]]; split; eexists; vm_compute; reflexivity.
Qed.

(** Relays 1 and 2, codes 33 and 34: four bearers, two with each IMSI. *)
Lemma X14_ConfigureL3UeToNetworkRelay_witness :
  exists w',
    RelaySetup.ConfigureL3UeToNetworkRelay RelaySetup.numbered_drb
      [1%nat; 2%nat] [33; 34] 9 5 RelaySetup.relays_and_remote = (Ret tt, w')
    /\ RelaySetup.activated w'
       = [RelaySetup.mkActivation 1%nat 1001 5 9;
          RelaySetup.mkActivation 1%nat 1001 5 9;
          RelaySetup.mkActivation 2%nat 1002 5 9;
          RelaySetup.mkActivation 2%nat 1002 5 9].
Proof.
  destruct (proj2 (X14_ConfigureL3UeToNetworkRelay_configures
                     RelaySetup.numbered_drb [1%nat; 2%nat] [33; 34] 9 5
                     RelaySetup.relays_and_remote) 7%nat eq_refl)
    as (w' & Hrun & _ & _ & _ & Hact & _).
  - apply NoDup_ListNoDup. repeat constructor; simpl; lia.
  - apply relays_and_remote_prepared. repeat constructor; lia.
  - exists w'. split; [exact Hrun | exact Hact].
Defined.

(** Relays 1 and 2 announce the codes 34 and 33; remote 3. *)
Lemma X15_StartRemoteRelayConnection_witness :
  exists w',
    RelaySetup.StartRemoteRelayConnection RelaySetup.numbered_drb
      [3%nat] [50] [1%nat; 2%nat] [10; 20] [34; 33] [501; 502]
      RelaySetup.ModelA 0%nat 5 9 RelaySetup.relays_and_remote = (Ret tt, w')
    /\ RelaySetup.prose w' !! 3%nat
       = Some ([RelaySetup.ConfigureUnicast]
               ++ [RelaySetup.SetRelaySelectionAlgorithm 0%nat])
    /\ exists new,
         RelaySetup.prose w' !! 1%nat
         = Some ([] ++ new ++ [RelaySetup.SetEpcHelper (Some 7%nat)])
         /\ RelaySetup.configured_codes new = RelaySetup.std_set [34; 33].
Proof.
  destruct (X15_StartRemoteRelayConnection_configures RelaySetup.numbered_drb
              [3%nat] [50] [1%nat; 2%nat] [10; 20] [34; 33] [501; 502]
              RelaySetup.ModelA 0%nat 5 9 RelaySetup.relays_and_remote 7%nat)
    as (w' & Hrun & Hrelay & Hremote & _); try (simpl; lia); try reflexivity.
  - apply NoDup_ListNoDup. repeat constructor; simpl; lia.
  - apply NoDup_ListNoDup. repeat constructor; simpl; lia.
  - apply relays_and_remote_prepared. repeat constructor; lia.
  - apply relays_and_remote_prepared. repeat constructor; lia.
  - exists w'. split; [exact Hrun|]. split.
    + apply (Hremote 3%nat [RelaySetup.ConfigureUnicast]
               (RelaySetup.mkNrUeNetDevice 1003 (Helper.mkUeRrc 1003 13) false));
        [by left|reflexivity|reflexivity].
    + destruct (Hrelay 1%nat [] (or_introl eq_refl) eq_refl)
        as (_ & new & Hnew & Hcodes & _).
      exists new. split; [exact Hnew | exact Hcodes].
Defined.

(** Device 1 twice and device 3 once. *)
Lemma X16_PrepareUesForUnicast_witness :
  exists w',
    RelaySetup.PrepareUesForUnicast [1%nat; 3%nat; 1%nat]
      RelaySetup.relays_and_remote = (Ret tt, w')
    /\ RelaySetup.prose w' !! 1%nat
       = Some [RelaySetup.ConfigureUnicast; RelaySetup.ConfigureUnicast]
    /\ RelaySetup.prose w' !! 2%nat = Some [].
Proof.
  destruct (X16_PrepareUesForUnicast_once_per_entry [1%nat; 3%nat; 1%nat]
              RelaySetup.relays_and_remote)
    as (w' & Hrun & _ & _ & _ & _ & Hp).
  - apply relays_and_remote_prepared. repeat constructor; lia.
  - exists w'. split; [exact Hrun|]. by rewrite !Hp.
Defined.
